(** * SeismoRMS: the RMS-from-PSD transform of [SeismoSocialDistancing.ipynb]

    The notebook cell of "Step 7" defines [dfrms] and [df_rms]; the next
    cell builds the PSD table, sorts its columns and calls [df_rms].  This
    development embeds those cells and the pandas / numpy operations they
    call, and proves properties of them.

    Number model.  A Python float is an exact real or [NaN] (pandas' marker
    for a missing cell): rounding, overflow and the infinities are outside
    the model.  Frequencies (column labels) and band limits are reals. *)

From Stdlib Require Import String Ascii DecimalString.
From Stdlib Require Import Reals Lra Lia ZArith Bool List.
From Stdlib Require Import Permutation Sorted.
Import ListNotations.
Local Open Scope R_scope.

Set Implicit Arguments.

(* ================================================================== *)
(** ** Floats with a missing value *)

Module Float.

Definition float : Type := option R.

Definition NaN : float := None.

Definition lift1 (f : R -> R) (x : float) : float :=
  match x with Some a => Some (f a) | None => None end.

Definition lift2 (f : R -> R -> R) (x y : float) : float :=
  match x, y with
  | Some a, Some b => Some (f a b)
  | _, _ => None
  end.

Definition add : float -> float -> float := lift2 Rplus.
Definition mul : float -> float -> float := lift2 Rmult.

(** [x / y]; a zero divisor gives no finite value. *)
Definition div (x y : float) : float :=
  match x, y with
  | Some a, Some b => if Req_dec_T b 0 then None else Some (a / b)
  | _, _ => None
  end.

(** [10.0 ** x] *)
Definition pow10 : float -> float := lift1 (Rpower 10).

(** [np.sqrt]: NaN on a negative argument. *)
Definition sqrt (x : float) : float :=
  match x with
  | Some a => if Rlt_dec a 0 then None else Some (R_sqrt.sqrt a)
  | None => None
  end.

Definition notna (x : float) : bool :=
  match x with Some _ => true | None => false end.

(** [x <= y] as floats compare: false as soon as one side is NaN. *)
Definition le (x y : float) : Prop :=
  match x, y with
  | Some a, Some b => a <= b
  | _, _ => False
  end.

End Float.

Abbreviation float := Float.float.
Abbreviation NaN := Float.NaN.

Definition Rleb (x y : R) : bool := if Rle_dec x y then true else false.

(* ================================================================== *)
(** ** Exceptions *)

Inductive exn : Type := IndexError | ValueError.

Inductive result (A : Type) : Type :=
| Ok (a : A)
| Raise (e : exn).

Arguments Ok {A} a.
Arguments Raise {A} e.

Definition bind {A B : Type} (m : result A) (k : A -> result B) : result B :=
  match m with
  | Ok a => k a
  | Raise e => Raise e
  end.

Notation "x <- m ;; k" := (bind m (fun x => k))
  (at level 61, m at next level, right associativity).

Fixpoint mapM {A B : Type} (f : A -> result B) (l : list A) : result (list B) :=
  match l with
  | [] => Ok []
  | a :: l' => b <- f a ;; bs <- mapM f l' ;; Ok (b :: bs)
  end.

(* ================================================================== *)
(** ** numpy *)

Fixpoint zip_with {A B C : Type} (f : A -> B -> C) (l : list A) (m : list B)
  : list C :=
  match l, m with
  | a :: l', b :: m' => f a b :: zip_with f l' m'
  | _, _ => []
  end.

(** [np.diff(x)], that is [x[1:] - x[:-1]]. *)
Definition diff (x : list R) : list R :=
  zip_with Rminus (tl x) (removelast x).

Definition fsum (l : list float) : float :=
  fold_right Float.add (Some 0) l.

(** [np.trapz(y, x)]:
    [d = diff(x); ret = (d * (y[1:] + y[:-1]) / 2.0).sum()].
    [dfrms] calls it on the values and the index of one Series, which have
    the same length. *)
Definition trapz (y : list float) (x : list R) : float :=
  fsum (zip_with (fun d s => Float.lift1 (fun a => a / 2)
                              (Float.mul (Some d) s))
          (diff x)
          (zip_with Float.add (tl y) (removelast y))).

Fixpoint np_where_from (i : nat) (mask : list bool) : list nat :=
  match mask with
  | [] => []
  | b :: mask' =>
      if b then i :: np_where_from (S i) mask' else np_where_from (S i) mask'
  end.

(** [np.where(mask)[0]]: the positions where the mask holds, ascending. *)
Definition np_where (mask : list bool) : list nat := np_where_from 0 mask.

(* ================================================================== *)
(** ** pandas *)

(** A Series: index labels with their values. *)
Definition Series (L : Type) : Type := list (L * float).

(** A DataFrame, column by column: the row index (timestamps) and, for each
    column, its label and its values down the rows. *)
Record DataFrame (L : Type) : Type := mkFrame {
  index : list Z;
  data : list (L * list float)
}.

Definition columns {L : Type} (d : DataFrame L) : list L := map fst (data d).

(** Every column has one value per row. *)
Definition rectangular {L : Type} (d : DataFrame L) : Prop :=
  Forall (fun c => length (snd c) = length (index d)) (data d).

(** [d.dropna(axis=1, how='all')]: a column stays when some row has a value
    in it. *)
Definition dropna_all_columns {L : Type} (d : DataFrame L) : DataFrame L :=
  mkFrame (index d) (filter (fun c => existsb Float.notna (snd c)) (data d)).

(** Positional selection [l[ix]]; a position past the end raises. *)
Definition take {A : Type} (l : list A) (ix : list nat) : result (list A) :=
  mapM (fun j => match nth_error l j with
                 | Some a => Ok a
                 | None => Raise IndexError
                 end) ix.

(** [d.iloc[:, ix]] *)
Definition iloc_columns {L : Type} (d : DataFrame L) (ix : list nat)
  : result (DataFrame L) :=
  cs <- take (data d) ix ;; Ok (mkFrame (index d) cs).

(** An elementwise operation on the cells. *)
Definition frame_map {L : Type} (f : float -> float) (d : DataFrame L)
  : DataFrame L :=
  mkFrame (index d) (map (fun c => (fst c, map f (snd c))) (data d)).

(** [d / w] for a one-dimensional [w]: [w] is laid along the columns and
    must have one entry per column. *)
Definition frame_div {L : Type} (d : DataFrame L) (w : list R)
  : result (DataFrame L) :=
  if Nat.eqb (length w) (length (data d)) then
    Ok (mkFrame (index d)
          (zip_with (fun c wj =>
                       (fst c, map (fun v => Float.div v (Some wj)) (snd c)))
             (data d) w))
  else Raise ValueError.

(** Row [i] of the frame as a Series indexed by the column labels. *)
Definition row {L : Type} (d : DataFrame L) (i : nat) : Series L :=
  map (fun c => (fst c, nth i (snd c) NaN)) (data d).

(** [d.apply(f, axis=1)] for a reducing [f]: one value per row.  On a frame
    without columns pandas calls [f] on an empty Series and repeats the
    result along the row index, which is what each (empty) row gives. *)
Definition apply_rows {L : Type} (f : Series L -> float) (d : DataFrame L)
  : list float :=
  map (fun i => f (row d i)) (seq 0 (length (index d))).

(** A Python dict with string keys: insertion ordered; assigning to a key
    that is present replaces its value where it stands. *)
Definition dict (V : Type) : Type := list (string * V).

Fixpoint dict_set {V : Type} (k : string) (v : V) (m : dict V) : dict V :=
  match m with
  | [] => [(k, v)]
  | (k', v') :: m' =>
      if String.eqb k' k then (k', v) :: m' else (k', v') :: dict_set k v m'
  end.

Fixpoint dict_get {V : Type} (k : string) (m : dict V) : option V :=
  match m with
  | [] => None
  | (k', v') :: m' => if String.eqb k' k then Some v' else dict_get k m'
  end.

(** A run of assignments [m[key b] = val b], one for each [b] in turn. *)
Definition assign_all {V B : Type} (key : B -> string) (val : B -> V)
  (bs : list B) (m : dict V) : dict V :=
  fold_left (fun t b => dict_set (key b) (val b) t) bs m.

(** ["%.1f" % x]: [x] rounded to one decimal, ties to even, with a sign
    for a negative [x]. *)
Definition round_half_even (x : R) : Z :=
  let n := Int_part x in
  let r := frac_part x in
  if Rlt_dec r (1 / 2) then n
  else if Rlt_dec (1 / 2) r then (n + 1)%Z
  else if Z.even n then n else (n + 1)%Z.

Definition string_of_Z (n : Z) : string :=
  NilZero.string_of_uint (N.to_uint (Z.to_N n)).

Definition format_1f (x : R) : string :=
  let n := round_half_even (10 * Rabs x) in
  ((if Rlt_dec x 0 then "-" else "")
   ++ string_of_Z (n / 10) ++ "." ++ string_of_Z (n mod 10))%string.

(** [df.sort_index(axis=1)]: the columns in ascending order of their
    labels.  With unique labels the result does not depend on the sorting
    algorithm; columns with equal labels keep their relative order here. *)
Fixpoint insert_column {V : Type} (c : R * V) (l : list (R * V))
  : list (R * V) :=
  match l with
  | [] => [c]
  | c' :: l' =>
      if Rleb (fst c) (fst c') then c :: c' :: l' else c' :: insert_column c l'
  end.

Definition sort_columns {V : Type} (l : list (R * V)) : list (R * V) :=
  fold_right insert_column [] l.

Definition sort_index_columns (d : DataFrame R) : DataFrame R :=
  mkFrame (index d) (sort_columns (data d)).

(* ================================================================== *)
(** ** The notebook's code *)

(** [def dfrms(a): return np.sqrt(np.trapz(a.values, a.index))] *)
Definition dfrms (a : Series R) : float :=
  Float.sqrt (trapz (map snd a) (map fst a)).

(** ["%.1f-%.1f" % (fmin, fmax)] *)
Definition band_label (fmin fmax : R) : string :=
  (format_1f fmin ++ "-" ++ format_1f fmax)%string.

(** The [for fmin, fmax in freqs] loop of [df_rms], threading the dict
    [RMS]; each [continue] is the recursive call on the remaining bands. *)
Fixpoint df_rms_loop (d : DataFrame R) (output : string)
  (freqs : list (R * R)) (RMS : dict (list float))
  : result (dict (list float)) :=
  match freqs with
  | [] => Ok RMS
  | (fmin, fmax) :: freqs' =>
      let ix := np_where (zip_with andb
                            (map (fun c => Rleb fmin c) (columns d))
                            (map (fun c => Rleb c fmax) (columns d))) in
      spec <- iloc_columns d ix ;;
      f <- take (columns d) ix ;;
      let w2f := map (fun fj => 2 * PI * fj) f in
      let amp :=
        frame_map (fun v => Float.pow10 (Float.lift1 (fun b => b / 10) v))
          spec in
      if String.eqb output "ACC" then
        df_rms_loop d output freqs'
          (dict_set (band_label fmin fmax) (apply_rows dfrms amp) RMS)
      else
        vamp <- frame_div amp (map (fun w => w ^ 2) w2f) ;;
        if String.eqb output "VEL" then
          df_rms_loop d output freqs'
            (dict_set (band_label fmin fmax) (apply_rows dfrms vamp) RMS)
        else
          damp <- frame_div vamp (map (fun w => w ^ 2) w2f) ;;
          df_rms_loop d output freqs'
            (dict_set (band_label fmin fmax) (apply_rows dfrms damp) RMS)
  end.

(** [pd.DataFrame(RMS, index=...)]: one column per key, in the dict's
    order.  Every Series of [RMS] came from [apply] on a frame with this
    very row index, so no realignment takes place. *)
Definition DataFrame_of_dict (RMS : dict (list float)) (idx : list Z)
  : DataFrame string :=
  mkFrame idx RMS.

(** [def df_rms(d, freqs, output="VEL")] *)
Definition df_rms (d : DataFrame R) (freqs : list (R * R)) (output : string)
  : result (DataFrame string) :=
  let d := dropna_all_columns d in
  RMS <- df_rms_loop d output freqs [] ;;
  Ok (DataFrame_of_dict RMS (index d)).

(** The default of the keyword argument [output]. *)
Definition default_output : string := "VEL".

(** A call of [df_rms] that may leave [output] out. *)
Definition call_df_rms (d : DataFrame R) (freqs : list (R * R))
  (output : option string) : result (DataFrame string) :=
  match output with
  | Some o => df_rms d freqs o
  | None => df_rms d freqs default_output
  end.

(** The calling cell: the bands of interest, and [df_rms] on the PSD table
    with its columns sorted, asking for ["DISP"]. *)
Definition freqs : list (R * R) :=
  [(1 / 10, 1); (1, 20); (4, 14); (4, 20)].

Definition displacement_RMS (data : DataFrame R)
  : result (DataFrame string) :=
  let data := sort_index_columns data in
  df_rms data freqs "DISP".

(* ================================================================== *)
(** ** What one pass of the loop computes

    The loop body without its plumbing: the columns of the band, the power
    spectrum in the requested unit, and the row-wise reduction.  The lemmas
    below show that [df_rms_loop] computes exactly these. *)

Definition in_band (fmin fmax f : R) : bool := Rleb fmin f && Rleb f fmax.

Definition select_band (d : DataFrame R) (fmin fmax : R) : DataFrame R :=
  mkFrame (index d) (filter (fun c => in_band fmin fmax (fst c)) (data d)).

Definition to_power (v : float) : float :=
  Float.pow10 (Float.lift1 (fun b => b / 10) v).

Definition div_omega2 (f : R) (v : float) : float :=
  Float.div v (Some ((2 * PI * f) ^ 2)).

Definition frame_div_omega2 (d : DataFrame R) : DataFrame R :=
  mkFrame (index d)
    (map (fun c => (fst c, map (div_omega2 (fst c)) (snd c))) (data d)).

Definition power_spectrum (output : string) (spec : DataFrame R)
  : DataFrame R :=
  let amp := frame_map to_power spec in
  if String.eqb output "ACC" then amp
  else if String.eqb output "VEL" then frame_div_omega2 amp
  else frame_div_omega2 (frame_div_omega2 amp).

Definition band_series (d : DataFrame R) (output : string) (fmin fmax : R)
  : list float :=
  apply_rows dfrms (power_spectrum output (select_band d fmin fmax)).

Definition store_band (d : DataFrame R) (output : string)
  (RMS : dict (list float)) (b : R * R) : dict (list float) :=
  dict_set (band_label (fst b) (snd b))
    (band_series d output (fst b) (snd b)) RMS.

(* ================================================================== *)
(** ** The specification's algorithm, written from its words *)

Inductive output_unit : Type := ACCELERATION | VELOCITY | DISPLACEMENT.

(** The string the notebook passes for each unit. *)
Definition unit_code (u : output_unit) : string :=
  match u with
  | ACCELERATION => "ACC"
  | VELOCITY => "VEL"
  | DISPLACEMENT => "DISP"
  end.

(** The unit [df_rms] computes for a given [output] string. *)
Definition unit_of_code (output : string) : output_unit :=
  if String.eqb output "ACC" then ACCELERATION
  else if String.eqb output "VEL" then VELOCITY
  else DISPLACEMENT.

(** Step 2: the frequency lies in [[fmin, fmax]], both ends included. *)
Definition spec_selected (fmin fmax f : R) : bool :=
  if Rle_dec fmin f then (if Rle_dec f fmax then true else false) else false.

(** Step 3: [power = 10^(db/10)]. *)
Definition spec_power (db : float) : float :=
  match db with
  | Some b => Some (Rpower 10 (b / 10))
  | None => None
  end.

(** Step 4: divide by [(2 pi f)^2] no, one or two times. *)
Definition spec_divisions (u : output_unit) : nat :=
  match u with
  | ACCELERATION => 0
  | VELOCITY => 1
  | DISPLACEMENT => 2
  end.

Definition spec_spectrum (u : output_unit) (f : R) (db : float) : float :=
  Nat.iter (spec_divisions u)
    (fun p => Float.div p (Some ((2 * PI * f) ^ 2))) (spec_power db).

(** Step 5: the trapezoidal rule over the points [(f, p)], in their order:
    half the width times the sum of the two ordinates, for each pair of
    neighbours. *)
Fixpoint spec_trapezoid (pts : list (R * float)) : float :=
  match pts with
  | (x0, y0) :: ((x1, y1) :: _) as rest =>
      Float.add (Float.mul (Some ((x1 - x0) / 2)) (Float.add y0 y1))
        (spec_trapezoid rest)
  | _ => Some 0
  end.

Definition spec_rms (u : output_unit) (fmin fmax : R) (r : Series R) : float :=
  Float.sqrt
    (spec_trapezoid
       (map (fun p => (fst p, spec_spectrum u (fst p) (snd p)))
          (filter (fun p => spec_selected fmin fmax (fst p)) r))).

(** Steps 5 and 6: one value per row of the table. *)
Definition spec_series (u : output_unit) (d : DataFrame R) (fmin fmax : R)
  : list float :=
  map (fun i => spec_rms u fmin fmax (row d i)) (seq 0 (length (index d))).

(** Steps 1, 6 and 7: drop the all-missing columns, then one labelled
    column per band, in the order the bands come. *)
Definition spec_compute_rms (d : DataFrame R) (bands : list (R * R))
  (u : output_unit) : DataFrame string :=
  let d := dropna_all_columns d in
  mkFrame (index d)
    (fold_left
       (fun t b =>
          dict_set (band_label (fst b) (snd b))
            (spec_series u d (fst b) (snd b)) t)
       bands []).

(* ================================================================== *)
(** ** Reading the result *)

(** The value at row [i] of the column that [df_rms] returns for the single
    band [(fmin, fmax)]. *)
Definition rms_value (d : DataFrame R) (output : string) (fmin fmax : R)
  (i : nat) : option float :=
  match df_rms d [(fmin, fmax)] output with
  | Ok r =>
      match dict_get (band_label fmin fmax) (data r) with
      | Some s => nth_error s i
      | None => None
      end
  | Raise _ => None
  end.

(** The three amplitudes of one row and band are ordered. *)
Definition units_ordered (d : DataFrame R) (fmin fmax : R) (i : nat) : Prop :=
  exists x y z,
    rms_value d "DISP" fmin fmax i = Some x /\
    rms_value d "VEL" fmin fmax i = Some y /\
    rms_value d "ACC" fmin fmax i = Some z /\
    Float.le x y /\ Float.le y z.

(** Two points over the same abscissa, both finite, the first below the
    second and not negative. *)
Definition dominated (p q : R * float) : Prop :=
  fst p = fst q /\
  exists a b, snd p = Some a /\ snd q = Some b /\ 0 <= a <= b.

(** The call ends in an exception. *)
Definition raises {A : Type} (m : result A) : Prop :=
  exists e, m = Raise e.

(** A series without values, or with missing values only. *)
Definition empty_or_all_nan (s : list float) : Prop :=
  s = [] \/ Forall (fun v => v = NaN) s.

(* ================================================================== *)
(** ** Small PSD tables *)

(** One row; 0 dB at 1 Hz and at 2 Hz. *)
Definition psd_example : DataFrame R :=
  mkFrame [0%Z] [(1, [Some 0]); (2, [Some 0])].

(** The same table with its two columns exchanged. *)
Definition psd_reversed : DataFrame R :=
  mkFrame [0%Z] [(2, [Some 0]); (1, [Some 0])].

(** One row; 0 dB at 1, 200 and 2 Hz, in this order. *)
Definition psd_unsorted : DataFrame R :=
  mkFrame [0%Z] [(1, [Some 0]); (200, [Some 0]); (2, [Some 0])].

(** Two rows; the first row has no value at 2 Hz. *)
Definition psd_gap : DataFrame R :=
  mkFrame [0%Z; 1%Z] [(1, [Some 0; Some 0]); (2, [NaN; Some 0])].

(** No rows and no columns. *)
Definition psd_empty : DataFrame R := mkFrame [] [].

(* ================================================================== *)
(** ** Tables derived from a table *)


(** A value that is missing or not negative. *)
Definition nan_or_not_negative (v : float) : Prop :=
  match v with
  | Some a => 0 <= a
  | None => True
  end.


(* ================================================================== *)
(** ** Python strings *)

(** [s.replace(pat, "")] for a non-empty [pat]: every occurrence of [pat]
    is removed, the occurrences being found from the left and not
    overlapping.  [skip] counts the characters of the occurrence at hand
    that are still to be dropped. *)
Fixpoint remove_from (pat : string) (skip : nat) (s : string) : string :=
  match s with
  | EmptyString => EmptyString
  | String c s' =>
      match skip with
      | S k => remove_from pat k s'
      | O =>
          if prefix pat (String c s')
          then remove_from pat (String.length pat - 1) s'
          else String c (remove_from pat 0 s')
      end
  end.

(** [s.replace(pat, "")]; with an empty [pat] the string is unchanged. *)
Definition str_remove (pat s : string) : string :=
  match pat with
  | EmptyString => s
  | String _ _ => remove_from pat 0 s
  end.

(** [s.split(sep)] for a separator of one character: the pieces between
    the separators, at least one piece. *)
Fixpoint split_on (sep : ascii) (s : string) : list string :=
  match s with
  | EmptyString => [EmptyString]
  | String c s' =>
      if Ascii.eqb c sep then EmptyString :: split_on sep s'
      else
        match split_on sep s' with
        | piece :: pieces => String c piece :: pieces
        | [] => [String c EmptyString]
        end
  end.

(** [l[-1]]: the last item; an empty list raises. *)
Definition last_item {A : Type} (l : list A) : result A :=
  match l with
  | [] => Raise IndexError
  | a :: l' => Ok (last l' a)
  end.

(** [s[:-n]] for a positive [n]: [s] without its last [n] characters. *)
Definition drop_last (n : nat) (s : string) : string :=
  substring 0 (String.length s - n) s.

(** The character occurs in the string. *)
Definition occurs (c : ascii) (s : string) : Prop :=
  In c (list_ascii_of_string s).

(* ================================================================== *)
(** ** The notebook's file names *)

(** Step 3:
    [nslc = "{}.{}.{}.{}".format(network, station, location, channel)]
    [nslc = nslc.replace("*", "").replace("?", "")] *)
Definition dotted (network station location channel : string) : string :=
  (network ++ "." ++ station ++ "." ++ location ++ "." ++ channel)%string.

Definition nslc_of (network station location channel : string) : string :=
  str_remove "?" (str_remove "*" (dotted network station location channel)).

(** Steps 3 and 4: ["{}_{}_{}.mseed".format(dataset, datestr, nslc)] *)
Definition mseed_name (dataset datestr nslc : string) : string :=
  (dataset ++ "_" ++ datestr ++ "_" ++ nslc ++ ".mseed")%string.

(** Step 4: [fn_out = "{}_{}_{}.npz".format(dataset, datestr, mseedid)],
    and [fn_out[:-4]], the name handed to [save_npz]. *)
Definition npz_name (dataset datestr mseedid : string) : string :=
  (dataset ++ "_" ++ datestr ++ "_" ++ mseedid ++ ".npz")%string.

Definition save_name (fn_out : string) : string := drop_last 4 fn_out.

(** Step 5: [mseedid = fn.replace(".npz", "").split("_")[-1]] *)
Definition mseedid_of (fn : string) : result string :=
  last_item (split_on "_" (str_remove ".npz" fn)).

(** Step 5: ["{}_{}_*.npz".format(dataset, datestr)], the pattern given
    to [glob]. *)
Definition npz_pattern (dataset datestr : string) : string :=
  (dataset ++ "_" ++ datestr ++ "_*.npz")%string.

(** Step 5, the inner loop [for fn in glob(fn_pattern)] threading the dict
    [ppsds].  [load_npz] and [add_npz] stand for [PPSD.load_npz(fn)] and
    [ppsd.add_npz(fn)] of the library; [add_npz] gives the PPSD after the
    file is added to it. *)
Fixpoint reload_files {P : Type} (load_npz : string -> P)
  (add_npz : P -> string -> P) (fns : list string) (ppsds : dict P)
  : result (dict P) :=
  match fns with
  | [] => Ok ppsds
  | fn :: fns' =>
      mseedid <- mseedid_of fn ;;
      match dict_get mseedid ppsds with
      | None =>
          reload_files load_npz add_npz fns'
            (dict_set mseedid (load_npz fn) ppsds)
      | Some ppsd =>
          reload_files load_npz add_npz fns'
            (dict_set mseedid (add_npz ppsd fn) ppsds)
      end
  end.

(** Step 5, the outer loop [for day in pbar] over the dates, as the
    strings [datestr]; [glob] stands for the file system. *)
Fixpoint reload_days {P : Type} (load_npz : string -> P)
  (add_npz : P -> string -> P) (glob : string -> list string)
  (dataset : string) (datestrs : list string) (ppsds : dict P)
  : result (dict P) :=
  match datestrs with
  | [] => Ok ppsds
  | datestr :: datestrs' =>
      ppsds' <- reload_files load_npz add_npz
                  (glob (npz_pattern dataset datestr)) ppsds ;;
      reload_days load_npz add_npz glob dataset datestrs' ppsds'
  end.

(** Step 5: [ppsds = {}], then the loops. *)
Definition reload_cell {P : Type} (load_npz : string -> P)
  (add_npz : P -> string -> P) (glob : string -> list string)
  (dataset : string) (datestrs : list string) : result (dict P) :=
  reload_days load_npz add_npz glob dataset datestrs [].

(** The files the loops visit, in the order they visit them. *)
Definition visited_files (glob : string -> list string) (dataset : string)
  (datestrs : list string) : list string :=
  List.concat (map (fun datestr => glob (npz_pattern dataset datestr))
                 datestrs).

(** The files whose name gives the trace id [id]. *)
Definition files_of (id : string) (fns : list string) : list string :=
  filter (fun fn => match mseedid_of fn with
                    | Ok i => String.eqb i id
                    | Raise _ => false
                    end) fns.

(** One more file for an id: loaded when it is the first, added
    otherwise. *)
Definition merge_file {P : Type} (load_npz : string -> P)
  (add_npz : P -> string -> P) (p : option P) (fn : string) : option P :=
  match p with
  | None => Some (load_npz fn)
  | Some ppsd => Some (add_npz ppsd fn)
  end.

(** The first file loaded and the later ones added to it, in order. *)
Definition merged {P : Type} (load_npz : string -> P)
  (add_npz : P -> string -> P) (fns : list string) : option P :=
  match fns with
  | [] => None
  | fn :: later => Some (fold_left add_npz later (load_npz fn))
  end.

(* ================================================================== *)
(** ** Step 3: the download cell

    Times are instants counted in microseconds, the resolution of
    [datetime].  The data centre and the file system are explicit: the
    client answers a request or raises, and the files on disk are a dict
    from file names to their contents. *)

Definition seconds (n : Z) : Z := (n * 1000000)%Z.

Definition one_day : Z := seconds 86400.

(** [pd.date_range(start, stop, freq="D")]: [start], a day later, and so
    on up to [stop]; nothing when [stop] is before [start]. *)
Definition date_range (start stop : Z) : list Z :=
  if (stop <? start)%Z then []
  else map (fun k => (start + Z.of_nat k * one_day)%Z)
         (seq 0 (S (Z.to_nat ((stop - start) / one_day)))).

(** [c = Client(data_provider)] with the network, station, location and
    channel of the cell: [get_waveforms] for a time window and
    [get_stations] for an instant; [None] when the request raises. *)
Record Client (Stream Inventory : Type) : Type := mkClient {
  get_waveforms : Z -> Z -> option Stream;
  get_stations : Z -> option Inventory
}.

Inductive cell_exn : Type := NameError | RequestError.

(** [os.path.isfile(fn)] *)
Definition isfile {F : Type} (fn : string) (files : dict F) : bool :=
  match dict_get fn files with
  | Some _ => true
  | None => false
  end.

(** The loop [for day in pbar] of Step 3.  [now k] is what
    [UTCDateTime().datetime] reads in pass [k]; the result is the files on
    disk when the loop ends and the exception that ended it, if any. *)
Fixpoint download_days {Stream Inventory : Type}
  (c : Client Stream Inventory) (strftime : Z -> string) (now : nat -> Z)
  (dataset nslc : string) (days : list Z) (k : nat) (files : dict Stream)
  : dict Stream * option cell_exn :=
  match days with
  | [] => (files, None)
  | day :: days' =>
      let datestr := strftime day in
      let fn := mseed_name dataset datestr nslc in
      if negb (day =? now k)%Z && isfile fn files then
        download_days c strftime now dataset nslc days' (S k) files
      else
        match get_waveforms c (day - seconds 1801)
                (day + seconds 86400 + seconds 1801) with
        | Some st =>
            download_days c strftime now dataset nslc days' (S k)
              (dict_set fn st files)
        | None => (files, Some RequestError)
        end
  end.

(** The whole cell: the list of days up to [min(end, UTCDateTime())], the
    loop, and [get_stations] for the last [day] of the loop; without a
    pass of the loop the name [day] is not bound.  The clock is read once
    for the list ([now 0]) and once in every pass. *)
Definition download_cell {Stream Inventory : Type}
  (c : Client Stream Inventory) (strftime : Z -> string) (now : nat -> Z)
  (start stop : Z) (dataset nslc : string) (files : dict Stream)
  : dict Stream * (cell_exn + Inventory) :=
  let datelist := date_range start (Z.min stop (now 0%nat)) in
  match download_days c strftime (fun k => now (S k)) dataset nslc
          datelist 0 files with
  | (files', Some e) => (files', inl e)
  | (files', None) =>
      match datelist with
      | [] => (files', inl NameError)
      | day0 :: days =>
          match get_stations c (last days day0) with
          | Some resp => (files', inr resp)
          | None => (files', inl RequestError)
          end
      end
  end.

(** A data centre that answers every request, with contents of no
    interest. *)
Definition any_client : Client unit unit :=
  mkClient (fun _ _ => Some tt) (fun _ => Some tt).

(* ================================================================== *)
(** * Proofs *)

(** ** Lists, masks and positional selection *)

Section Selection.

Context {A B C : Type}.

Lemma zip_with_map_same (f : B -> C -> A) {X : Type} (g : X -> B)
  (h : X -> C) (l : list X) :
  zip_with f (map g l) (map h l) = map (fun a => f (g a) (h a)) l.
Proof.
  induction l as [|a l IH]; simpl; [reflexivity|].
  now rewrite IH.
Qed.

Lemma zip_with_map_r (f : A -> B -> C) (g : A -> B) (l : list A) :
  zip_with f l (map g l) = map (fun a => f a (g a)) l.
Proof.
  induction l as [|a l IH]; simpl; [reflexivity|].
  now rewrite IH.
Qed.

Lemma take_np_where_from (p : A -> bool) (l2 l1 : list A) :
  take (l1 ++ l2) (np_where_from (length l1) (map p l2))
  = Ok (filter p l2).
Proof.
  revert l1; induction l2 as [|a l2 IH]; intros l1; simpl.
  - reflexivity.
  - assert (Hnext : take (l1 ++ a :: l2)
                      (np_where_from (S (length l1)) (map p l2))
                    = Ok (filter p l2)).
    { specialize (IH (l1 ++ [a])).
      rewrite <- app_assoc, length_app in IH; simpl in IH.
      now rewrite Nat.add_1_r in IH. }
    destruct (p a); [|exact Hnext].
    unfold take in *; simpl.
    rewrite nth_error_app2, Nat.sub_diag by lia; simpl.
    now rewrite Hnext.
Qed.

Lemma take_np_where (p : A -> bool) (l : list A) :
  take l (np_where (map p l)) = Ok (filter p l).
Proof. exact (take_np_where_from p l []). Qed.

End Selection.

Lemma filter_map_comm {A B : Type} (g : A -> B) (p : B -> bool) (l : list A) :
  filter p (map g l) = map g (filter (fun a => p (g a)) l).
Proof.
  induction l as [|a l IH]; simpl; [reflexivity|].
  destruct (p (g a)); simpl; now rewrite IH.
Qed.

Lemma band_mask (fmin fmax : R) (cols : list R) :
  zip_with andb (map (fun c => Rleb fmin c) cols)
    (map (fun c => Rleb c fmax) cols)
  = map (in_band fmin fmax) cols.
Proof.
  exact (zip_with_map_same andb (fun c => Rleb fmin c) (fun c => Rleb c fmax)
           cols).
Qed.

Lemma iloc_band (d : DataFrame R) (fmin fmax : R) :
  iloc_columns d (np_where (map (in_band fmin fmax) (columns d)))
  = Ok (select_band d fmin fmax).
Proof.
  unfold iloc_columns, columns.
  rewrite map_map.
  rewrite (take_np_where (fun c => in_band fmin fmax (fst c)) (data d)).
  reflexivity.
Qed.

Lemma columns_band (d : DataFrame R) (fmin fmax : R) :
  take (columns d) (np_where (map (in_band fmin fmax) (columns d)))
  = Ok (columns (select_band d fmin fmax)).
Proof.
  rewrite take_np_where.
  unfold columns, select_band; simpl.
  now rewrite filter_map_comm.
Qed.

Lemma columns_frame_map (f : float -> float) (d : DataFrame R) :
  columns (frame_map f d) = columns d.
Proof.
  unfold columns, frame_map; simpl.
  rewrite map_map; reflexivity.
Qed.

Lemma columns_frame_div_omega2 (d : DataFrame R) :
  columns (frame_div_omega2 d) = columns d.
Proof.
  unfold columns, frame_div_omega2; simpl.
  rewrite map_map; reflexivity.
Qed.

(** Dividing a frame by [w2f**2], with [w2f] built from its own column
    labels, never fails on the length check. *)
Lemma frame_div_w2f (d : DataFrame R) :
  frame_div d (map (fun w => w ^ 2) (map (fun fj => 2 * PI * fj) (columns d)))
  = Ok (frame_div_omega2 d).
Proof.
  unfold frame_div, columns.
  rewrite !length_map, Nat.eqb_refl.
  rewrite !map_map, zip_with_map_r.
  reflexivity.
Qed.

(** ** The loop *)

Lemma df_rms_loop_eq (d : DataFrame R) (output : string)
  (bands : list (R * R)) (RMS : dict (list float)) :
  df_rms_loop d output bands RMS
  = Ok (fold_left (store_band d output) bands RMS).
Proof.
  revert RMS; induction bands as [|[fmin fmax] bands IH]; intros RMS.
  - reflexivity.
  - cbn [df_rms_loop fold_left].
    rewrite band_mask, iloc_band, columns_band.
    cbn [bind].
    unfold store_band at 2, band_series, power_spectrum; cbn [fst snd].
    fold to_power.
    destruct (String.eqb output "ACC"); [apply IH|].
    rewrite <- (columns_frame_map to_power), frame_div_w2f.
    cbn [bind].
    destruct (String.eqb output "VEL"); [apply IH|].
    rewrite <- columns_frame_div_omega2, frame_div_w2f.
    cbn [bind].
    apply IH.
Qed.

Lemma df_rms_eq (d : DataFrame R) (bands : list (R * R)) (output : string) :
  df_rms d bands output
  = Ok (mkFrame (index d)
          (fold_left (store_band (dropna_all_columns d) output) bands [])).
Proof.
  unfold df_rms.
  rewrite df_rms_loop_eq.
  reflexivity.
Qed.

(** ** Rows of the intermediate frames *)

Lemma row_select_band (d : DataFrame R) (fmin fmax : R) (i : nat) :
  row (select_band d fmin fmax) i
  = filter (fun p => in_band fmin fmax (fst p)) (row d i).
Proof.
  unfold row, select_band; simpl.
  now rewrite filter_map_comm.
Qed.

Lemma row_frame_map (f : float -> float) (d : DataFrame R) (i : nat) :
  f NaN = NaN ->
  row (frame_map f d) i = map (fun p => (fst p, f (snd p))) (row d i).
Proof.
  intros HNaN; unfold row, frame_map; simpl.
  rewrite !map_map; apply map_ext; intros [c vs]; simpl.
  rewrite <- HNaN at 1.
  now rewrite map_nth.
Qed.

Lemma row_frame_div_omega2 (d : DataFrame R) (i : nat) :
  row (frame_div_omega2 d) i
  = map (fun p => (fst p, div_omega2 (fst p) (snd p))) (row d i).
Proof.
  unfold row, frame_div_omega2; simpl.
  rewrite !map_map; apply map_ext; intros [c vs]; simpl.
  change NaN with (div_omega2 c NaN) at 1.
  now rewrite map_nth.
Qed.

Lemma index_power_spectrum (output : string) (d : DataFrame R) :
  index (power_spectrum output d) = index d.
Proof.
  unfold power_spectrum.
  destruct (String.eqb output "ACC"); [reflexivity|].
  destruct (String.eqb output "VEL"); reflexivity.
Qed.

Lemma in_band_selected (fmin fmax f : R) :
  in_band fmin fmax f = spec_selected fmin fmax f.
Proof.
  unfold in_band, spec_selected, Rleb.
  destruct (Rle_dec fmin f), (Rle_dec f fmax); reflexivity.
Qed.

Lemma row_power_spectrum (output : string) (d : DataFrame R) (i : nat) :
  row (power_spectrum output d) i
  = map (fun p => (fst p, spec_spectrum (unit_of_code output) (fst p) (snd p)))
      (row d i).
Proof.
  unfold power_spectrum, unit_of_code.
  destruct (String.eqb output "ACC").
  - rewrite row_frame_map by reflexivity.
    apply map_ext; intros [f [b|]]; reflexivity.
  - destruct (String.eqb output "VEL").
    + rewrite row_frame_div_omega2, row_frame_map by reflexivity.
      rewrite map_map.
      apply map_ext; intros [f [b|]]; reflexivity.
    + rewrite !row_frame_div_omega2, row_frame_map by reflexivity.
      rewrite !map_map.
      apply map_ext; intros [f [b|]]; reflexivity.
Qed.

(** ** The trapezoidal rule *)

Lemma trapz_cons2 (y0 y1 : float) (ys : list float) (x0 x1 : R)
  (xs : list R) :
  trapz (y0 :: y1 :: ys) (x0 :: x1 :: xs)
  = Float.add
      (Float.lift1 (fun a => a / 2)
         (Float.mul (Some (x1 - x0)) (Float.add y1 y0)))
      (trapz (y1 :: ys) (x1 :: xs)).
Proof. reflexivity. Qed.

Lemma trapz_spec_trapezoid (pts : list (R * float)) :
  trapz (map snd pts) (map fst pts) = spec_trapezoid pts.
Proof.
  induction pts as [|[x0 y0] pts IH]; [reflexivity|].
  destruct pts as [|[x1 y1] rest]; [reflexivity|].
  change (map snd ((x0, y0) :: (x1, y1) :: rest))
    with (y0 :: y1 :: map snd rest).
  change (map fst ((x0, y0) :: (x1, y1) :: rest))
    with (x0 :: x1 :: map fst rest).
  rewrite trapz_cons2.
  change (trapz (y1 :: map snd rest) (x1 :: map fst rest))
    with (trapz (map snd ((x1, y1) :: rest)) (map fst ((x1, y1) :: rest))).
  rewrite IH.
  cbn [spec_trapezoid]; f_equal.
  destruct y0 as [a|], y1 as [b|]; simpl; try reflexivity.
  f_equal; lra.
Qed.

Lemma dfrms_spec_trapezoid (a : Series R) :
  dfrms a = Float.sqrt (spec_trapezoid a).
Proof. unfold dfrms; now rewrite trapz_spec_trapezoid. Qed.

(** ** The code against the specification's algorithm *)

Lemma band_series_spec (d : DataFrame R) (output : string) (fmin fmax : R) :
  band_series d output fmin fmax
  = spec_series (unit_of_code output) d fmin fmax.
Proof.
  unfold band_series, spec_series, apply_rows.
  rewrite index_power_spectrum; simpl.
  apply map_ext; intros i.
  rewrite dfrms_spec_trapezoid, row_power_spectrum, row_select_band.
  unfold spec_rms; do 3 f_equal.
  apply filter_ext; intros p; apply in_band_selected.
Qed.

Lemma fold_left_ext_fun {A B : Type} (f g : A -> B -> A) (l : list B)
  (a : A) :
  (forall x y, f x y = g x y) -> fold_left f l a = fold_left g l a.
Proof.
  intros H; revert a; induction l as [|b l IH]; intros a; simpl.
  - reflexivity.
  - now rewrite H, IH.
Qed.

Lemma df_rms_spec (d : DataFrame R) (bands : list (R * R))
  (output : string) :
  df_rms d bands output
  = Ok (spec_compute_rms d bands (unit_of_code output)).
Proof.
  rewrite df_rms_eq; unfold spec_compute_rms; simpl.
  do 2 f_equal.
  apply fold_left_ext_fun; intros t b.
  unfold store_band; now rewrite band_series_spec.
Qed.

(** ** The dict *)

Section Dict.

Context {V : Type}.
Implicit Types (m : dict V) (k : string) (v : V).

Lemma dict_get_set_same k v m : dict_get k (dict_set k v m) = Some v.
Proof.
  induction m as [|[k' v'] m IH]; simpl.
  - now rewrite String.eqb_refl.
  - destruct (String.eqb k' k) eqn:E; simpl; rewrite E; auto.
Qed.

Lemma dict_get_set_other k k' v m :
  k' <> k -> dict_get k (dict_set k' v m) = dict_get k m.
Proof.
  intros Hne; induction m as [|[k0 v0] m IH]; simpl.
  - apply String.eqb_neq in Hne; now rewrite Hne.
  - destruct (String.eqb k0 k') eqn:E; simpl.
    + apply String.eqb_eq in E; subst k0.
      apply String.eqb_neq in Hne; now rewrite Hne.
    + destruct (String.eqb k0 k); auto.
Qed.

Lemma dict_set_keys_in k v m : In k (map fst (dict_set k v m)).
Proof.
  induction m as [|[k' v'] m IH]; simpl; [now left|].
  destruct (String.eqb k' k) eqn:E; simpl.
  - apply String.eqb_eq in E; now left.
  - now right.
Qed.

Lemma dict_set_keys_mono k k' v m :
  In k (map fst m) -> In k (map fst (dict_set k' v m)).
Proof.
  induction m as [|[k0 v0] m IH]; simpl; [tauto|].
  destruct (String.eqb k0 k'); simpl; tauto.
Qed.

Lemma dict_set_keys_inv k k' v m :
  In k (map fst (dict_set k' v m)) -> k = k' \/ In k (map fst m).
Proof.
  induction m as [|[k0 v0] m IH]; simpl.
  - intros [H|[]]; auto.
  - destruct (String.eqb k0 k'); simpl; tauto.
Qed.

Lemma dict_set_NoDup k v m :
  NoDup (map fst m) -> NoDup (map fst (dict_set k v m)).
Proof.
  induction m as [|[k0 v0] m IH]; simpl; intros Hnd.
  - constructor; [tauto|constructor].
  - inversion Hnd as [|? ? Hnotin Hnd']; subst.
    destruct (String.eqb k0 k) eqn:E; simpl.
    + now constructor.
    + constructor; [|auto].
      intros Hin; apply dict_set_keys_inv in Hin as [->|Hin]; [|tauto].
      now rewrite String.eqb_refl in E.
Qed.

Lemma dict_set_values (P : V -> Prop) k v m :
  P v -> Forall (fun kv => P (snd kv)) m ->
  Forall (fun kv => P (snd kv)) (dict_set k v m).
Proof.
  intros Hv; induction m as [|[k0 v0] m IH]; simpl; intros Hm.
  - now repeat constructor.
  - inversion Hm; subst.
    destruct (String.eqb k0 k); constructor; auto.
Qed.

Variables (B : Type) (key : B -> string) (val : B -> V).

Local Abbreviation assign_all := (assign_all key val).

Lemma assign_all_get_other k bs m :
  (forall b, In b bs -> key b <> k) ->
  dict_get k (assign_all bs m) = dict_get k m.
Proof.
  revert m; induction bs as [|b bs IH]; intros m Hne; simpl.
  - reflexivity.
  - unfold assign_all in *; simpl.
    rewrite IH by (intros; apply Hne; now right).
    apply dict_get_set_other, Hne; now left.
Qed.

Lemma assign_all_get_last pre b post m :
  (forall b', In b' post -> key b' <> key b) ->
  dict_get (key b) (assign_all (pre ++ b :: post) m) = Some (val b).
Proof.
  intros Hne; unfold assign_all.
  rewrite fold_left_app; simpl.
  change (dict_get (key b)
            (assign_all post (dict_set (key b) (val b) (assign_all pre m)))
          = Some (val b)).
  rewrite assign_all_get_other by exact Hne.
  apply dict_get_set_same.
Qed.

Lemma assign_all_NoDup bs m :
  NoDup (map fst m) -> NoDup (map fst (assign_all bs m)).
Proof.
  revert m; induction bs as [|b bs IH]; intros m Hnd; simpl; [exact Hnd|].
  apply IH, dict_set_NoDup, Hnd.
Qed.

Lemma assign_all_keys_mono k bs m :
  In k (map fst m) -> In k (map fst (assign_all bs m)).
Proof.
  revert m; induction bs as [|b bs IH]; intros m Hin; simpl; [exact Hin|].
  apply IH, dict_set_keys_mono, Hin.
Qed.

Lemma assign_all_keys_in b bs m :
  In b bs -> In (key b) (map fst (assign_all bs m)).
Proof.
  revert m; induction bs as [|b0 bs IH]; intros m; simpl; [tauto|].
  intros [->|Hin].
  - apply assign_all_keys_mono, dict_set_keys_in.
  - now apply IH.
Qed.

Lemma assign_all_values (P : V -> Prop) bs m :
  (forall b, In b bs -> P (val b)) ->
  Forall (fun kv => P (snd kv)) m ->
  Forall (fun kv => P (snd kv)) (assign_all bs m).
Proof.
  revert m; induction bs as [|b bs IH]; intros m Hv Hm; simpl; [exact Hm|].
  apply IH; [intros; apply Hv; now right|].
  apply dict_set_values; [apply Hv; now left|exact Hm].
Qed.

Lemma assign_all_keys_single b bs :
  In b bs ->
  count_occ string_dec (map fst (assign_all bs [])) (key b) = 1%nat.
Proof.
  intros Hin.
  apply NoDup_count_occ'.
  - apply assign_all_NoDup; constructor.
  - now apply assign_all_keys_in.
Qed.

End Dict.

(** ** Bands that select at most one column *)

Lemma sqrt_zero : Float.sqrt (Some 0) = Some 0.
Proof.
  unfold Float.sqrt.
  destruct (Rlt_dec 0 0) as [H|_]; [lra|].
  now rewrite sqrt_0.
Qed.

Lemma dfrms_short (a : Series R) : (length a <= 1)%nat -> dfrms a = Some 0.
Proof.
  destruct a as [|p [|q a]]; simpl; intros H; try lia; apply sqrt_zero.
Qed.

Lemma map_const_seq {A : Type} (c : A) (s n : nat) :
  map (fun _ => c) (seq s n) = repeat c n.
Proof.
  revert s; induction n as [|n IH]; intros s; simpl; [reflexivity|].
  now rewrite IH.
Qed.

Lemma length_data_power_spectrum (output : string) (d : DataFrame R) :
  length (data (power_spectrum output d)) = length (data d).
Proof.
  unfold power_spectrum.
  destruct (String.eqb output "ACC"); [|destruct (String.eqb output "VEL")];
    simpl; now rewrite ?length_map.
Qed.

Lemma band_series_short (d : DataFrame R) (output : string) (fmin fmax : R) :
  (length (data (select_band d fmin fmax)) <= 1)%nat ->
  band_series d output fmin fmax = repeat (Some 0) (length (index d)).
Proof.
  intros Hlen; unfold band_series, apply_rows.
  rewrite index_power_spectrum; simpl.
  rewrite <- (map_const_seq (Some 0) 0).
  apply map_ext; intros i.
  apply dfrms_short.
  unfold row; now rewrite length_map, length_data_power_spectrum.
Qed.

Lemma band_series_no_rows (d : DataFrame R) (output : string)
  (fmin fmax : R) :
  index d = [] ->
  band_series d output fmin fmax = repeat (Some 0) (length (index d)).
Proof.
  intros Hidx; unfold band_series, apply_rows.
  rewrite index_power_spectrum; simpl.
  now rewrite Hidx.
Qed.

Lemma filter_none {A : Type} (p : A -> bool) (l : list A) :
  (forall a, In a l -> p a = false) -> filter p l = [].
Proof.
  induction l as [|a l IH]; simpl; intros H; [reflexivity|].
  rewrite (H a) by now left.
  apply IH; intros; apply H; now right.
Qed.

Lemma in_band_true (fmin fmax f : R) :
  in_band fmin fmax f = true <-> fmin <= f <= fmax.
Proof.
  unfold in_band, Rleb.
  destruct (Rle_dec fmin f), (Rle_dec f fmax); simpl; split;
    intros H; try discriminate; try reflexivity; lra.
Qed.

Lemma in_band_reversed (fmin fmax f : R) :
  fmax < fmin -> in_band fmin fmax f = false.
Proof.
  intros Hlt; destruct (in_band fmin fmax f) eqn:E; [|reflexivity].
  apply in_band_true in E; lra.
Qed.

Lemma filter_unique_key {V : Type} (p : R * V -> bool) (k : R)
  (l : list (R * V)) :
  NoDup (map fst l) ->
  (forall c, p c = true -> fst c = k) ->
  (length (filter p l) <= 1)%nat.
Proof.
  intros Hnd Hp; induction l as [|c l IH]; simpl; [lia|].
  inversion Hnd as [|? ? Hnotin Hnd']; subst.
  destruct (p c) eqn:E; [|auto].
  rewrite filter_none; [simpl; lia|].
  intros a Ha; destruct (p a) eqn:Ea; [|reflexivity].
  exfalso; apply Hnotin.
  rewrite (Hp c E), <- (Hp a Ea).
  now apply in_map.
Qed.

Lemma NoDup_map_filter {A K : Type} (g : A -> K) (p : A -> bool)
  (l : list A) :
  NoDup (map g l) -> NoDup (map g (filter p l)).
Proof.
  induction l as [|a l IH]; simpl; intros Hnd; [constructor|].
  inversion Hnd as [|? ? Hnotin Hnd']; subst.
  destruct (p a); simpl; [|auto].
  constructor; [|auto].
  intros Hin; apply Hnotin.
  apply in_map_iff in Hin as [x [Hx Hin]].
  apply filter_In in Hin as [Hin _].
  rewrite <- Hx; now apply in_map.
Qed.

(** A band with [fmin >= fmax] selects at most one of the columns that
    remain, when the frequencies are unique or the band is reversed. *)
Lemma degenerate_band_short (d : DataFrame R) (fmin fmax : R) :
  fmax < fmin \/ (fmin = fmax /\ NoDup (columns d)) ->
  (length (data (select_band (dropna_all_columns d) fmin fmax)) <= 1)%nat.
Proof.
  intros [Hlt|[Heq Hnd]]; simpl.
  - rewrite filter_none; [simpl; lia|].
    intros c _; now apply in_band_reversed.
  - apply filter_unique_key with (k := fmin).
    + now apply NoDup_map_filter.
    + intros c Hc; apply in_band_true in Hc; lra.
Qed.

(** ** Dropping the all-missing columns *)

Lemma existsb_notna_all_nan (vs : list float) :
  (forall v, In v vs -> v = NaN) -> existsb Float.notna vs = false.
Proof.
  induction vs as [|v vs IH]; simpl; intros H; [reflexivity|].
  rewrite (H v) by now left.
  apply IH; intros; apply H; now right.
Qed.

Lemma dropna_remove_column (idx : list Z) (cols1 cols2 : list (R * list float))
  (c : R * list float) :
  (forall v, In v (snd c) -> v = NaN) ->
  dropna_all_columns (mkFrame idx (cols1 ++ c :: cols2))
  = dropna_all_columns (mkFrame idx (cols1 ++ cols2)).
Proof.
  intros Hnan; unfold dropna_all_columns; simpl.
  rewrite !filter_app; simpl.
  now rewrite existsb_notna_all_nan.
Qed.

(** ** Sorting the columns *)

Section SortColumns.

Context {V : Type}.
Implicit Types (c : R * V) (l : list (R * V)).

Lemma insert_column_comm c1 c2 l :
  fst c1 <> fst c2 ->
  insert_column c1 (insert_column c2 l)
  = insert_column c2 (insert_column c1 l).
Proof.
  intros Hne; induction l as [|c l IH];
    repeat (cbn [insert_column]; unfold Rleb;
            match goal with
            | |- context [Rle_dec ?a ?b] => destruct (Rle_dec a b)
            end);
    try lra; try reflexivity.
  f_equal; exact IH.
Qed.

Lemma sort_columns_permutation l1 l2 :
  Permutation l1 l2 -> NoDup (map fst l1) ->
  sort_columns l1 = sort_columns l2.
Proof.
  induction 1 as [|c l1 l2 Hperm IH|c1 c2 l|l1 l2 l3 H12 IH12 H23 IH23];
    intros Hnd; simpl.
  - reflexivity.
  - inversion Hnd; subst; now rewrite IH.
  - inversion Hnd as [|? ? Hnotin _]; subst.
    apply insert_column_comm.
    intros Heq; apply Hnotin; simpl; now left.
  - rewrite IH12 by exact Hnd.
    apply IH23.
    eapply Permutation_NoDup; [|exact Hnd].
    now apply Permutation_map.
Qed.

Lemma insert_column_permutation c l : Permutation (c :: l) (insert_column c l).
Proof.
  induction l as [|c' l IH]; simpl; [reflexivity|].
  destruct (Rleb (fst c) (fst c')); [reflexivity|].
  rewrite perm_swap; now constructor.
Qed.

Lemma sort_columns_is_permutation l : Permutation l (sort_columns l).
Proof.
  induction l as [|c l IH]; simpl; [constructor|].
  rewrite <- insert_column_permutation; now constructor.
Qed.

Lemma insert_column_sorted c l :
  Sorted Rle (map fst l) -> Sorted Rle (map fst (insert_column c l)).
Proof.
  induction l as [|c' l IH]; simpl; intros Hs.
  - repeat constructor.
  - unfold Rleb; destruct (Rle_dec (fst c) (fst c')) as [Hle|Hgt]; simpl.
    + constructor; [exact Hs|now constructor].
    + inversion Hs as [|? ? Hs' Hhd]; subst.
      constructor; [auto|].
      destruct l as [|c'' l]; simpl.
      * constructor; lra.
      * unfold Rleb; destruct (Rle_dec (fst c) (fst c'')); simpl;
          constructor; [lra|].
        now inversion Hhd.
Qed.

Lemma sort_columns_sorted l : Sorted Rle (map fst (sort_columns l)).
Proof.
  induction l as [|c l IH]; simpl; [constructor|].
  now apply insert_column_sorted.
Qed.

End SortColumns.

(** ** The three units on one row *)

Lemma PI_gt_3 : 3 < PI.
Proof. pose proof PI2_3_2; lra. Qed.

Lemma omega2_ge_1 (f : R) : 1 <= f -> 1 <= (2 * PI * f) ^ 2.
Proof.
  intros Hf; pose proof PI_gt_3.
  assert (1 <= 2 * PI * f) by nra.
  simpl; nra.
Qed.

Lemma div_finite (a w : R) :
  w <> 0 -> Float.div (Some a) (Some w) = Some (a / w).
Proof.
  intros Hw; unfold Float.div.
  destruct (Req_dec_T w 0); [contradiction|reflexivity].
Qed.

Lemma div_by_ge_1 (a w : R) : 0 <= a -> 1 <= w -> 0 <= a / w <= a.
Proof.
  intros Ha Hw.
  assert (0 < / w) by (apply Rinv_0_lt_compat; lra).
  assert (/ w <= 1).
  { rewrite <- Rinv_1; apply Rinv_le_contravar; lra. }
  unfold Rdiv; split; nra.
Qed.

Lemma spectrum_chain (f b : R) :
  1 <= f ->
  exists a v x,
    spec_spectrum ACCELERATION f (Some b) = Some a /\
    spec_spectrum VELOCITY f (Some b) = Some v /\
    spec_spectrum DISPLACEMENT f (Some b) = Some x /\
    0 <= x <= v /\ 0 <= v <= a.
Proof.
  intros Hf.
  pose proof (omega2_ge_1 Hf) as Hw.
  assert (Hp : 0 < Rpower 10 (b / 10)) by (unfold Rpower; apply exp_pos).
  set (p := Rpower 10 (b / 10)) in *.
  set (w := (2 * PI * f) ^ 2) in *.
  exists p, (p / w), (p / w / w).
  change (spec_spectrum ACCELERATION f (Some b)) with (Some p).
  change (spec_spectrum VELOCITY f (Some b))
    with (Float.div (Some p) (Some w)).
  change (spec_spectrum DISPLACEMENT f (Some b))
    with (Float.div (Float.div (Some p) (Some w)) (Some w)).
  rewrite !div_finite by lra.
  repeat split; try reflexivity.
  - apply div_by_ge_1; [apply div_by_ge_1|]; lra.
  - apply div_by_ge_1; [apply div_by_ge_1|]; lra.
  - apply div_by_ge_1; lra.
  - apply div_by_ge_1; lra.
Qed.

Lemma spec_trapezoid_cons2 (x0 x1 : R) (y0 y1 : float)
  (rest : list (R * float)) :
  spec_trapezoid ((x0, y0) :: (x1, y1) :: rest)
  = Float.add (Float.mul (Some ((x1 - x0) / 2)) (Float.add y0 y1))
      (spec_trapezoid ((x1, y1) :: rest)).
Proof. reflexivity. Qed.

Lemma trapezoid_monotone (pts pts' : list (R * float)) :
  Forall2 dominated pts pts' ->
  Sorted Rle (map fst pts) ->
  exists t t',
    spec_trapezoid pts = Some t /\ spec_trapezoid pts' = Some t' /\
    0 <= t <= t'.
Proof.
  induction 1 as [|[x0 y0] [x0' y0'] pts pts' Hd Hrest IH]; intros Hs.
  - exists 0, 0; repeat split; lra.
  - destruct Hd as [Hx [a0 [b0 [Ha0 [Hb0 Hab0]]]]].
    simpl in Hx, Ha0, Hb0; subst x0' y0 y0'.
    inversion Hs as [|? ? Hs' Hhd]; subst.
    destruct (IH Hs') as [t [t' [Ht [Ht' Htt']]]].
    destruct Hrest as [|[x1 y1] [x1' y1'] pts pts' Hd1 Hrest].
    + exists 0, 0; repeat split; lra.
    + destruct Hd1 as [Hx1 [a1 [b1 [Ha1 [Hb1 Hab1]]]]].
      simpl in Hx1, Ha1, Hb1; subst x1' y1 y1'.
      simpl in Hhd; inversion Hhd; subst.
      rewrite !spec_trapezoid_cons2, Ht, Ht'; simpl.
      eexists; eexists; split; [reflexivity|split; [reflexivity|]].
      split; nra.
Qed.

Lemma sqrt_trapezoid_monotone (pts pts' : list (R * float)) :
  Forall2 dominated pts pts' ->
  Sorted Rle (map fst pts) ->
  Float.le (Float.sqrt (spec_trapezoid pts))
    (Float.sqrt (spec_trapezoid pts')).
Proof.
  intros Hd Hs.
  destruct (trapezoid_monotone Hd Hs) as [t [t' [-> [-> Htt']]]].
  unfold Float.sqrt.
  destruct (Rlt_dec t 0), (Rlt_dec t' 0); try lra.
  simpl; apply sqrt_le_1_alt; lra.
Qed.

Lemma spectra_dominated (r : Series R) :
  Forall (fun p => 1 <= fst p /\ snd p <> NaN) r ->
  Forall2 dominated
    (map (fun p => (fst p, spec_spectrum DISPLACEMENT (fst p) (snd p))) r)
    (map (fun p => (fst p, spec_spectrum VELOCITY (fst p) (snd p))) r)
  /\ Forall2 dominated
       (map (fun p => (fst p, spec_spectrum VELOCITY (fst p) (snd p))) r)
       (map (fun p => (fst p, spec_spectrum ACCELERATION (fst p) (snd p))) r).
Proof.
  induction 1 as [|[f [b|]] r [Hf Hfin] Hr [IH1 IH2]]; simpl in *.
  - split; constructor.
  - destruct (spectrum_chain b Hf) as [a [v [x [Ha [Hv [Hx [Hxv Hva]]]]]]].
    split; constructor; auto; split; simpl; auto.
    + exists x, v; auto.
    + exists v, a; auto.
  - now contradiction Hfin.
Qed.

Lemma StronglySorted_map_filter {A : Type} (g : A -> R) (p : A -> bool)
  (l : list A) :
  StronglySorted Rle (map g l) -> StronglySorted Rle (map g (filter p l)).
Proof.
  induction l as [|a l IH]; simpl; intros Hs; [constructor|].
  inversion Hs as [|? ? Hs' Hall]; subst.
  destruct (p a); simpl; [|auto].
  constructor; [auto|].
  rewrite Forall_forall in *; intros x Hx.
  apply Hall.
  apply in_map_iff in Hx as [y [<- Hy]].
  apply filter_In in Hy as [Hy _]; now apply in_map.
Qed.

Lemma Rle_transitive : Relations_1.Transitive Rle.
Proof. intros x y z; apply Rle_trans. Qed.

Lemma Sorted_map_filter {A : Type} (g : A -> R) (p : A -> bool)
  (l : list A) :
  Sorted Rle (map g l) -> Sorted Rle (map g (filter p l)).
Proof.
  intros Hs.
  apply StronglySorted_Sorted, StronglySorted_map_filter.
  apply Sorted_StronglySorted; [exact Rle_transitive|exact Hs].
Qed.

(** ** Reading one value of the result *)

Lemma rms_value_row (d : DataFrame R) (output : string) (fmin fmax : R)
  (i : nat) :
  (i < length (index d))%nat ->
  rms_value d output fmin fmax i
  = Some (spec_rms (unit_of_code output) fmin fmax
            (row (dropna_all_columns d) i)).
Proof.
  intros Hi; unfold rms_value.
  rewrite df_rms_spec; unfold spec_compute_rms; simpl.
  rewrite String.eqb_refl.
  unfold spec_series; simpl.
  rewrite nth_error_map, nth_error_seq.
  apply Nat.ltb_lt in Hi; now rewrite Hi.
Qed.

Lemma spec_selected_true (fmin fmax f : R) :
  fmin <= f <= fmax -> spec_selected fmin fmax f = true.
Proof. rewrite <- in_band_selected; apply in_band_true. Qed.

Lemma spec_selected_false (fmin fmax f : R) :
  f < fmin \/ fmax < f -> spec_selected fmin fmax f = false.
Proof.
  intros H; rewrite <- in_band_selected.
  destruct (in_band fmin fmax f) eqn:E; [|reflexivity].
  apply in_band_true in E; lra.
Qed.

Lemma power_0dB : spec_power (Some 0) = Some 1.
Proof.
  unfold spec_power; f_equal.
  replace (0 / 10) with 0 by lra.
  apply Rpower_O; lra.
Qed.

Lemma sqrt_finite (t : R) :
  0 <= t -> Float.sqrt (Some t) = Some (R_sqrt.sqrt t).
Proof.
  intros Ht; unfold Float.sqrt.
  destruct (Rlt_dec t 0); [lra|reflexivity].
Qed.

Lemma sqrt_negative (t : R) : t < 0 -> Float.sqrt (Some t) = NaN.
Proof.
  intros Ht; unfold Float.sqrt.
  destruct (Rlt_dec t 0); [reflexivity|lra].
Qed.

(** ** Formatting *)

Lemma round_half_even_near (x : R) (n : Z) :
  IZR n - 1 / 2 < x < IZR n + 1 / 2 -> round_half_even x = n.
Proof.
  intros Hx; unfold round_half_even, frac_part.
  destruct (Rle_dec (IZR n) x) as [Hle|Hgt].
  - rewrite <- (Int_part_spec x n) by lra.
    destruct (Rlt_dec (x - IZR n) (1 / 2)); [reflexivity|lra].
  - assert (Hm : IZR (n - 1) = IZR n - 1) by (rewrite minus_IZR; lra).
    rewrite <- (Int_part_spec x (n - 1)) by lra.
    rewrite Hm.
    destruct (Rlt_dec (x - (IZR n - 1)) (1 / 2)); [lra|].
    destruct (Rlt_dec (1 / 2) (x - (IZR n - 1))); [lia|lra].
Qed.

Lemma format_1f_near (x : R) (n : Z) :
  0 <= x -> IZR n - 1 / 2 < 10 * x < IZR n + 1 / 2 ->
  format_1f x
  = (string_of_Z (n / 10) ++ "." ++ string_of_Z (n mod 10))%string.
Proof.
  intros H0 Hx; unfold format_1f.
  rewrite Rabs_pos_eq by exact H0.
  rewrite (@round_half_even_near _ n Hx).
  destruct (Rlt_dec x 0); [lra|reflexivity].
Qed.

(** The key the plotting cells use for the third band of [freqs]. *)
Lemma band_label_4_14 : band_label 4 14 = "4.0-14.0"%string.
Proof.
  unfold band_label.
  rewrite (@format_1f_near 4 40), (@format_1f_near 14 140) by lra.
  reflexivity.
Qed.

Lemma band_label_near_1_2 (fmin : R) :
  19 / 20 < fmin < 21 / 20 -> band_label fmin 2 = "1.0-2.0"%string.
Proof.
  intros H; unfold band_label.
  rewrite (@format_1f_near fmin 10), (@format_1f_near 2 20) by lra.
  reflexivity.
Qed.

(** ** Evaluating the small tables *)

Ltac decide_selected :=
  repeat match goal with
    | |- context [spec_selected ?a ?b ?c] =>
        first [ rewrite (@spec_selected_true a b c) by lra
              | rewrite (@spec_selected_false a b c) by lra ]
    end.

Ltac read_row d :=
  rewrite rms_value_row by (simpl; lia);
  cbv [d row dropna_all_columns data index filter existsb Float.notna Float.NaN
         snd fst map nth orb];
  unfold spec_rms; cbn [filter fst];
  decide_selected;
  cbn [map fst snd].

Lemma spectrum_acc_0dB (f : R) :
  spec_spectrum ACCELERATION f (Some 0) = Some 1.
Proof. exact power_0dB. Qed.

Lemma spectrum_vel_0dB (f : R) :
  0 < f -> spec_spectrum VELOCITY f (Some 0) = Some (1 / (2 * PI * f) ^ 2).
Proof.
  intros Hf.
  change (spec_spectrum VELOCITY f (Some 0))
    with (Float.div (spec_power (Some 0)) (Some ((2 * PI * f) ^ 2))).
  rewrite power_0dB.
  apply div_finite.
  pose proof PI_RGT_0.
  apply pow_nonzero; nra.
Qed.

Lemma psd_example_acc : rms_value psd_example "ACC" 1 2 0 = Some (Some 1).
Proof.
  read_row psd_example.
  change (unit_of_code "ACC") with ACCELERATION.
  rewrite !spectrum_acc_0dB.
  cbn [spec_trapezoid Float.add Float.mul Float.lift2].
  rewrite sqrt_finite by lra.
  replace ((2 - 1) / 2 * (1 + 1) + 0) with 1 by lra.
  now rewrite sqrt_1.
Qed.

Lemma psd_reversed_acc : rms_value psd_reversed "ACC" 1 2 0 = Some NaN.
Proof.
  read_row psd_reversed.
  change (unit_of_code "ACC") with ACCELERATION.
  rewrite !spectrum_acc_0dB.
  cbn [spec_trapezoid Float.add Float.mul Float.lift2].
  now rewrite sqrt_negative by lra.
Qed.

Lemma psd_gap_acc : rms_value psd_gap "ACC" 1 2 0 = Some NaN.
Proof.
  read_row psd_gap.
  reflexivity.
Qed.

Lemma psd_unsorted_acc :
  rms_value psd_unsorted "ACC" 1 200 0 = Some (Some 1).
Proof.
  read_row psd_unsorted.
  change (unit_of_code "ACC") with ACCELERATION.
  rewrite !spectrum_acc_0dB.
  cbn [spec_trapezoid Float.add Float.mul Float.lift2].
  rewrite sqrt_finite by lra.
  replace ((200 - 1) / 2 * (1 + 1) + ((2 - 200) / 2 * (1 + 1) + 0))
    with 1 by lra.
  now rewrite sqrt_1.
Qed.

Lemma psd_unsorted_vel :
  exists v, rms_value psd_unsorted "VEL" 1 200 0 = Some (Some v) /\ 1 < v.
Proof.
  read_row psd_unsorted.
  change (unit_of_code "VEL") with VELOCITY.
  rewrite !spectrum_vel_0dB by lra.
  cbn [spec_trapezoid Float.add Float.mul Float.lift2].
  pose proof PI_RGT_0 as Hpos.
  pose proof PI_4 as Hle4.
  set (q := / PI ^ 2).
  assert (Hq : / 16 <= q).
  { unfold q; apply Rinv_le_contravar; nra. }
  assert (H1 : 1 / (2 * PI * 1) ^ 2 = q / 4) by (unfold q; field; apply PI_neq0).
  assert (H2 : 1 / (2 * PI * 2) ^ 2 = q / 16) by (unfold q; field; apply PI_neq0).
  assert (H200 : 1 / (2 * PI * 200) ^ 2 = q / 160000)
    by (unfold q; field; apply PI_neq0).
  rewrite H1, H2, H200.
  eexists; split.
  - rewrite sqrt_finite by lra; reflexivity.
  - match goal with
    | |- 1 < R_sqrt.sqrt ?V =>
        pose proof (sqrt_lt_1_alt 1 V) as Hsqrt
    end.
    rewrite sqrt_1 in Hsqrt; apply Hsqrt; lra.
Qed.

(** ** Shape of the result *)

Lemma df_rms_never_raises (d : DataFrame R) (bands : list (R * R))
  (output : string) :
  ~ raises (df_rms d bands output).
Proof.
  intros [e He]; rewrite df_rms_eq in He; discriminate.
Qed.

Lemma df_rms_single (d : DataFrame R) (output : string) (fmin fmax : R) :
  df_rms d [(fmin, fmax)] output
  = Ok (mkFrame (index d)
          [(band_label fmin fmax,
            band_series (dropna_all_columns d) output fmin fmax)]).
Proof. now rewrite df_rms_eq. Qed.

Lemma length_band_series (d : DataFrame R) (output : string)
  (fmin fmax : R) :
  length (band_series d output fmin fmax) = length (index d).
Proof.
  unfold band_series, apply_rows.
  now rewrite length_map, length_seq, index_power_spectrum.
Qed.

(** The column found under a band's label is the series of that band, as
    long as no later band has the same label. *)
Lemma df_rms_column (d : DataFrame R) (output : string)
  (pre post : list (R * R)) (fmin fmax : R) :
  (forall b, In b post ->
             band_label (fst b) (snd b) <> band_label fmin fmax) ->
  exists r,
    df_rms d (pre ++ (fmin, fmax) :: post) output = Ok r /\
    dict_get (band_label fmin fmax) (data r)
    = Some (band_series (dropna_all_columns d) output fmin fmax) /\
    count_occ string_dec (columns r) (band_label fmin fmax) = 1%nat.
Proof.
  intros Hpost; rewrite df_rms_eq.
  eexists; split; [reflexivity|]; simpl; split.
  - apply (assign_all_get_last
             (fun b => band_label (fst b) (snd b))
             (fun b => band_series (dropna_all_columns d) output
                         (fst b) (snd b))
             pre (fmin, fmax) post []).
    exact Hpost.
  - apply (assign_all_keys_single
             (fun b => band_label (fst b) (snd b))
             (fun b => band_series (dropna_all_columns d) output
                         (fst b) (snd b))
             (fmin, fmax)).
    apply in_or_app; right; now left.
Qed.

Lemma band_series_no_columns (d : DataFrame R) (output : string)
  (fmin fmax : R) :
  (forall c, In c (data d) -> ~ fmin <= fst c <= fmax) ->
  band_series d output fmin fmax = repeat (Some 0) (length (index d)).
Proof.
  intros Hnone; apply band_series_short; simpl.
  rewrite filter_none; [simpl; lia|].
  intros c Hc; destruct (in_band fmin fmax (fst c)) eqn:E; [|reflexivity].
  apply in_band_true in E; now apply Hnone in Hc.
Qed.

(* ================================================================== *)
(** * The claims *)

(** C1.  For every PSD table and band list, [df_rms] returns the table the
    specification's algorithm describes: per band, the columns with
    [fmin <= f <= fmax] of the cleaned table, each decibel value turned
    into the power [10^(b/10)], divided by [(2 pi f)^2] twice for
    DISPLACEMENT, once for VELOCITY and not at all for ACCELERATION,
    integrated row by row with the trapezoidal rule over the selected
    frequencies, and the square root taken.  This holds for columns in any
    order, so in particular for columns sorted ascending. *)
Theorem df_rms_computes_specification (d : DataFrame R)
  (bands : list (R * R)) (u : output_unit) :
  df_rms d bands (unit_code u) = Ok (spec_compute_rms d bands u).
Proof.
  rewrite df_rms_spec.
  destruct u; reflexivity.
Qed.

(** C7.  The table [df_rms] returns has the row index of the input table,
    unchanged, and every one of its columns has one value per row. *)
Theorem row_index_preserved (d : DataFrame R) (bands : list (R * R))
  (output : string) :
  exists r,
    df_rms d bands output = Ok r /\
    index r = index d /\
    rectangular r.
Proof.
  rewrite df_rms_eq.
  eexists; split; [reflexivity|]; split; [reflexivity|].
  unfold rectangular; simpl.
  apply (assign_all_values
           (fun b => band_label (fst b) (snd b))
           (fun b => band_series (dropna_all_columns d) output
                       (fst b) (snd b))
           (fun s => length s = length (index d))).
  - intros b _.
    exact (length_band_series (dropna_all_columns d) output (fst b) (snd b)).
  - constructor.
Qed.

(** C8.  A column that is missing in every row is dropped before the bands
    are selected: it is in no band's selection, and the output is the
    output computed on the table without that column. *)
Theorem all_missing_column_ignored (idx : list Z)
  (cols1 cols2 : list (R * list float)) (c : R * list float)
  (bands : list (R * R)) (output : string) :
  (forall v, In v (snd c) -> v = NaN) ->
  (forall fmin fmax,
      ~ In c (data (select_band
                      (dropna_all_columns (mkFrame idx (cols1 ++ c :: cols2)))
                      fmin fmax))) /\
  df_rms (mkFrame idx (cols1 ++ c :: cols2)) bands output
  = df_rms (mkFrame idx (cols1 ++ cols2)) bands output.
Proof.
  intros Hnan; split.
  - intros fmin fmax Hin; simpl in Hin.
    apply filter_In in Hin as [Hin _].
    apply filter_In in Hin as [_ Hsome].
    rewrite existsb_notna_all_nan in Hsome by exact Hnan.
    discriminate.
  - rewrite !df_rms_eq.
    now rewrite (dropna_remove_column idx cols1 cols2 c Hnan).
Qed.

Lemma all_missing_column_ignored_witness :
  (forall v, In v (snd (3 / 2, [NaN])) -> v = NaN) /\
  df_rms (mkFrame [0%Z]
            ([(1, [Some 0])] ++ (3 / 2, [NaN]) :: [(2, [Some 0])]))
    [(1, 2)] "DISP"
  = df_rms (mkFrame [0%Z] ([(1, [Some 0])] ++ [(2, [Some 0])]))
      [(1, 2)] "DISP".
Proof.
  assert (H : forall v, In v (snd (3 / 2, [NaN])) -> v = NaN).
  { intros v [<-|[]]; reflexivity. }
  split; [exact H|].
  exact (proj2 (@all_missing_column_ignored [0%Z] [(1, [Some 0])]
                  [(2, [Some 0])] (3 / 2, [NaN]) [(1, 2)] "DISP" H)).
Defined.

(** C9.  When two bands have the same label and no band after the second
    has it, the output has exactly one column under that label, and it
    holds the series of the second band: the first band's series is
    overwritten. *)
Theorem duplicate_label_overwrites (d : DataFrame R) (output : string)
  (pre mid post : list (R * R)) (fmin1 fmax1 fmin2 fmax2 : R) :
  band_label fmin1 fmax1 = band_label fmin2 fmax2 ->
  (forall b, In b post ->
             band_label (fst b) (snd b) <> band_label fmin2 fmax2) ->
  exists r s,
    df_rms d (pre ++ (fmin1, fmax1) :: mid ++ (fmin2, fmax2) :: post) output
    = Ok r /\
    df_rms d [(fmin2, fmax2)] output
    = Ok (mkFrame (index d) [(band_label fmin2 fmax2, s)]) /\
    count_occ string_dec (columns r) (band_label fmin1 fmax1) = 1%nat /\
    dict_get (band_label fmin1 fmax1) (data r) = Some s.
Proof.
  intros Hsame Hpost.
  destruct (df_rms_column d output (pre ++ (fmin1, fmax1) :: mid) post
              fmin2 fmax2 Hpost) as [r [Hr [Hget Hcount]]].
  rewrite <- app_assoc in Hr; simpl in Hr.
  exists r, (band_series (dropna_all_columns d) output fmin2 fmax2).
  rewrite Hsame.
  repeat split; auto using df_rms_single.
Qed.

Lemma duplicate_label_overwrites_witness :
  band_label (101 / 100) 2 = band_label (26 / 25) 2 /\
  exists r s,
    df_rms psd_example [(101 / 100, 2); (26 / 25, 2)] "DISP" = Ok r /\
    df_rms psd_example [(26 / 25, 2)] "DISP"
    = Ok (mkFrame (index psd_example) [(band_label (26 / 25) 2, s)]) /\
    count_occ string_dec (columns r) (band_label (101 / 100) 2) = 1%nat /\
    dict_get (band_label (101 / 100) 2) (data r) = Some s.
Proof.
  assert (H : band_label (101 / 100) 2 = band_label (26 / 25) 2).
  { rewrite !band_label_near_1_2 by lra; reflexivity. }
  split; [exact H|].
  apply (@duplicate_label_overwrites psd_example "DISP" [] [] []
           (101 / 100) 2 (26 / 25) 2 H).
  intros b [].
Defined.

(** C10.  The [output] argument is not validated: every string other than
    ["ACC"] and ["VEL"] makes [df_rms] return the displacement table, as
    ["DISP"] does, without raising; when the argument is left out it is
    ["VEL"]. *)
Theorem unrecognized_unit_is_displacement (d : DataFrame R)
  (bands : list (R * R)) (output : string) :
  output <> "ACC"%string -> output <> "VEL"%string ->
  df_rms d bands output = Ok (spec_compute_rms d bands DISPLACEMENT) /\
  df_rms d bands output = df_rms d bands "DISP" /\
  call_df_rms d bands None = df_rms d bands "VEL".
Proof.
  intros Hacc Hvel.
  assert (Hu : unit_of_code output = DISPLACEMENT).
  { unfold unit_of_code.
    apply String.eqb_neq in Hacc, Hvel; now rewrite Hacc, Hvel. }
  repeat split.
  - now rewrite df_rms_spec, Hu.
  - now rewrite !df_rms_spec, Hu.
Qed.

Lemma unrecognized_unit_is_displacement_witness :
  "DISPLACEMENT"%string <> "ACC"%string /\
  "DISPLACEMENT"%string <> "VEL"%string /\
  df_rms psd_example freqs "DISPLACEMENT"
  = Ok (spec_compute_rms psd_example freqs DISPLACEMENT).
Proof.
  assert (H1 : "DISPLACEMENT"%string <> "ACC"%string) by discriminate.
  assert (H2 : "DISPLACEMENT"%string <> "VEL"%string) by discriminate.
  split; [exact H1|split; [exact H2|]].
  exact (proj1 (@unrecognized_unit_is_displacement psd_example freqs
                  "DISPLACEMENT" H1 H2)).
Defined.

(** C2 (as stated, refuted).  [df_rms] rejects neither an empty band list
    nor an empty PSD table: both calls return, the first one a table with
    the row of the input and no column. *)
Lemma empty_input_not_rejected :
  df_rms psd_example [] "DISP" = Ok (mkFrame [0%Z] []) /\
  ~ raises (df_rms psd_example [] "DISP") /\
  ~ raises (df_rms psd_empty freqs "DISP").
Proof.
  split; [reflexivity|split; apply df_rms_never_raises].
Qed.

(** C2 (amended).  On an empty band list or an empty PSD table (no rows, or
    no columns) [df_rms] returns a table with the row index of the input.
    With an empty band list the table has no columns; with an empty PSD
    table every column is 0.0 in every row, so without values when there
    are no rows. *)
Theorem empty_input_returns (d : DataFrame R) (bands : list (R * R))
  (output : string) :
  bands = [] \/ index d = [] \/ data d = [] ->
  exists r,
    df_rms d bands output = Ok r /\
    index r = index d /\
    (bands = [] -> data r = []) /\
    Forall (fun kv => snd kv = repeat (Some 0) (length (index d))) (data r).
Proof.
  intros Hempty; rewrite df_rms_eq.
  eexists; split; [reflexivity|]; split; [reflexivity|]; simpl; split.
  - now intros ->.
  - apply (assign_all_values
             (fun b => band_label (fst b) (snd b))
             (fun b => band_series (dropna_all_columns d) output
                         (fst b) (snd b))
             (fun s => s = repeat (Some 0) (length (index d))));
      [|constructor].
    intros b Hb.
    destruct Hempty as [->|[Hidx|Hdata]]; [destruct Hb| |].
    + exact (band_series_no_rows (dropna_all_columns d) output
               (fst b) (snd b) Hidx).
    + apply (band_series_short (dropna_all_columns d)); simpl.
      rewrite Hdata; simpl; lia.
Qed.

Lemma empty_input_returns_witness :
  (freqs = [] \/ index psd_empty = [] \/ data psd_empty = []) /\
  exists r,
    df_rms psd_empty freqs "DISP" = Ok r /\
    index r = index psd_empty /\
    (freqs = [] -> data r = []) /\
    Forall (fun kv => snd kv = repeat (Some 0) (length (index psd_empty)))
      (data r).
Proof.
  assert (H : freqs = [] \/ index psd_empty = [] \/ data psd_empty = []).
  { right; left; reflexivity. }
  split; [exact H|].
  exact (@empty_input_returns psd_empty freqs "DISP" H).
Defined.

(** C3 (as stated, refuted).  The band [(2, 1)] has [fmin >= fmax] and is
    not rejected: the call returns a table, with 0.0 for the band. *)
Lemma reversed_band_not_rejected :
  2 >= 1 /\
  df_rms psd_example [(2, 1)] "DISP"
  = Ok (mkFrame [0%Z] [(band_label 2 1, [Some 0])]) /\
  ~ raises (df_rms psd_example [(2, 1)] "DISP").
Proof.
  split; [lra|split; [|apply df_rms_never_raises]].
  rewrite df_rms_single; do 4 f_equal.
  apply (band_series_short (dropna_all_columns psd_example)).
  apply degenerate_band_short; left; lra.
Qed.

(** C3 (amended).  A band with [fmin >= fmax] is not rejected: [df_rms]
    returns a table for every band list that contains it.  With
    [fmin > fmax], or with [fmin = fmax] on a table with unique
    frequencies, the band selects at most one column, and the column under
    its label is 0.0 in every row (unless a later band has the same
    label). *)
Theorem degenerate_band_returns_zero (d : DataFrame R) (output : string)
  (pre post : list (R * R)) (fmin fmax : R) :
  fmax < fmin \/ (fmin = fmax /\ NoDup (columns d)) ->
  (forall b, In b post ->
             band_label (fst b) (snd b) <> band_label fmin fmax) ->
  exists r,
    df_rms d (pre ++ (fmin, fmax) :: post) output = Ok r /\
    dict_get (band_label fmin fmax) (data r)
    = Some (repeat (Some 0) (length (index d))).
Proof.
  intros Hdeg Hpost.
  destruct (df_rms_column d output pre post fmin fmax Hpost)
    as [r [Hr [Hget _]]].
  exists r; split; [exact Hr|].
  rewrite Hget; f_equal.
  apply (band_series_short (dropna_all_columns d)).
  now apply degenerate_band_short.
Qed.

Lemma degenerate_band_returns_zero_witness :
  (1 < 2 \/ (2 = 1 /\ NoDup (columns psd_example))) /\
  (forall b, In b [] -> band_label (fst b) (snd b) <> band_label 2 1) /\
  exists r,
    df_rms psd_example ([(1, 2)] ++ (2, 1) :: []) "DISP" = Ok r /\
    dict_get (band_label 2 1) (data r)
    = Some (repeat (Some 0) (length (index psd_example))).
Proof.
  assert (H1 : 1 < 2 \/ (2 = 1 /\ NoDup (columns psd_example)))
    by (left; lra).
  assert (H2 : forall b : R * R,
             In b [] -> band_label (fst b) (snd b) <> band_label 2 1)
    by (intros b []).
  split; [exact H1|split; [exact H2|]].
  exact (@degenerate_band_returns_zero psd_example "DISP" [(1, 2)] []
           2 1 H1 H2).
Defined.

(** C4 (as stated, refuted).  No column of the table lies in the band
    [(5, 6)]; the series of the band has one value, 0.0: it is neither
    empty nor all-NaN. *)
Lemma band_without_columns_not_nan :
  (forall c, In c (data (dropna_all_columns psd_example)) ->
             ~ 5 <= fst c <= 6) /\
  exists s,
    df_rms psd_example [(5, 6)] "DISP"
    = Ok (mkFrame [0%Z] [(band_label 5 6, s)]) /\
    ~ empty_or_all_nan s.
Proof.
  assert (Hnone : forall c, In c (data (dropna_all_columns psd_example)) ->
                            ~ 5 <= fst c <= 6).
  { intros c [<-|[<-|[]]]; simpl; lra. }
  split; [exact Hnone|].
  exists [Some 0]; split.
  - rewrite df_rms_single; do 4 f_equal.
    exact (band_series_no_columns (dropna_all_columns psd_example) "DISP"
             Hnone).
  - intros [Hnil|Hnan]; [discriminate|].
    inversion Hnan; discriminate.
Qed.

(** C4 (amended).  A band whose range contains no column of the cleaned
    table does not make [df_rms] raise; its series is 0.0 in every row
    (empty only when the table has no rows).  Every band of the list is
    computed as it is alone: the column under its label is the series
    [df_rms] returns for that band by itself, unless a later band has the
    same label. *)
Theorem band_without_columns_is_zero (d : DataFrame R) (output : string)
  (pre post : list (R * R)) (fmin fmax : R) :
  (forall c, In c (data (dropna_all_columns d)) -> ~ fmin <= fst c <= fmax) ->
  df_rms d [(fmin, fmax)] output
  = Ok (mkFrame (index d)
          [(band_label fmin fmax, repeat (Some 0) (length (index d)))]) /\
  exists r,
    df_rms d (pre ++ (fmin, fmax) :: post) output = Ok r /\
    forall l1 l2 lo hi,
      pre ++ (fmin, fmax) :: post = l1 ++ (lo, hi) :: l2 ->
      (forall b, In b l2 -> band_label (fst b) (snd b) <> band_label lo hi) ->
      exists s,
        df_rms d [(lo, hi)] output
        = Ok (mkFrame (index d) [(band_label lo hi, s)]) /\
        dict_get (band_label lo hi) (data r) = Some s.
Proof.
  intros Hnone; split.
  - rewrite df_rms_single; do 4 f_equal.
    exact (band_series_no_columns (dropna_all_columns d) output Hnone).
  - eexists; split; [apply df_rms_eq|].
    intros l1 l2 lo hi Hsplit Hlater.
    destruct (df_rms_column d output l1 l2 lo hi Hlater)
      as [r' [Hr' [Hget _]]].
    rewrite <- Hsplit, df_rms_eq in Hr'; injection Hr' as <-.
    eexists; split; [apply df_rms_single|exact Hget].
Qed.

Lemma band_without_columns_is_zero_witness :
  (forall c, In c (data (dropna_all_columns psd_example)) ->
             ~ 5 <= fst c <= 6) /\
  df_rms psd_example [(5, 6)] "DISP"
  = Ok (mkFrame (index psd_example)
          [(band_label 5 6, repeat (Some 0) (length (index psd_example)))]).
Proof.
  assert (Hnone : forall c, In c (data (dropna_all_columns psd_example)) ->
                            ~ 5 <= fst c <= 6).
  { intros c [<-|[<-|[]]]; simpl; lra. }
  split; [exact Hnone|].
  exact (proj1 (@band_without_columns_is_zero psd_example "DISP" [(1, 2)] []
                  5 6 Hnone)).
Defined.

(** C5 (as stated, refuted).  With the columns out of order the velocity
    amplitude exceeds the acceleration amplitude, although every selected
    frequency is at least 1 Hz and every selected cell holds a value.  And
    on a row with one value and one missing cell the amplitudes are NaN,
    which compares below nothing. *)
Lemma unit_monotonicity_fails :
  (forall c, In c (data (dropna_all_columns psd_unsorted)) ->
             1 <= fst c <= 200 ->
             1 <= fst c /\ nth 0 (snd c) NaN <> NaN)
  /\ ~ units_ordered psd_unsorted 1 200 0
  /\ (forall c, In c (data (dropna_all_columns psd_gap)) ->
                1 <= fst c <= 2 -> 1 <= fst c)
  /\ (exists c, In c (data (dropna_all_columns psd_gap)) /\
                1 <= fst c <= 2 /\ nth 0 (snd c) NaN <> NaN)
  /\ ~ units_ordered psd_gap 1 2 0.
Proof.
  split; [|split; [|split; [|split]]].
  - intros c [<-|[<-|[<-|[]]]] _; simpl; split; try lra; discriminate.
  - intros [x [y [z [_ [Hy [Hz [_ Hyz]]]]]]].
    destruct psd_unsorted_vel as [v [Hv Hgt]].
    rewrite Hv in Hy; rewrite psd_unsorted_acc in Hz.
    injection Hy as <-; injection Hz as <-.
    simpl in Hyz; lra.
  - intros c _ H; lra.
  - exists (1, [Some 0; Some 0]); simpl.
    split; [now left|split; [lra|discriminate]].
  - intros [x [y [z [_ [_ [Hz [_ Hyz]]]]]]].
    rewrite psd_gap_acc in Hz; injection Hz as <-.
    destruct y; exact Hyz.
Qed.

(** C5 (amended).  On a table whose frequency columns are sorted
    ascending, for every band and every row whose selected frequencies are
    all at least 1 Hz and whose selected cells all hold a value, the
    DISPLACEMENT amplitude is at most the VELOCITY amplitude, which is at
    most the ACCELERATION amplitude. *)
Theorem unit_monotonicity (d : DataFrame R) (fmin fmax : R) (i : nat) :
  Sorted Rle (columns d) ->
  (i < length (index d))%nat ->
  (forall c, In c (data (dropna_all_columns d)) ->
             fmin <= fst c <= fmax ->
             1 <= fst c /\ nth i (snd c) NaN <> NaN) ->
  units_ordered d fmin fmax i.
Proof.
  intros Hsorted Hi Hrow; unfold units_ordered.
  rewrite !rms_value_row by exact Hi.
  change (unit_of_code "DISP") with DISPLACEMENT.
  change (unit_of_code "VEL") with VELOCITY.
  change (unit_of_code "ACC") with ACCELERATION.
  do 3 eexists; repeat (split; [reflexivity|]).
  unfold spec_rms.
  set (pts := filter (fun p => spec_selected fmin fmax (fst p))
                (row (dropna_all_columns d) i)).
  assert (Hpts : Forall (fun p => 1 <= fst p /\ snd p <> NaN) pts).
  { apply Forall_forall; intros p Hp.
    apply filter_In in Hp as [Hp Hsel].
    rewrite <- in_band_selected in Hsel; apply in_band_true in Hsel.
    apply in_map_iff in Hp as [c [<- Hc]].
    exact (Hrow c Hc Hsel). }
  assert (Hs : forall u,
             Sorted Rle
               (map fst (map (fun p => (fst p, spec_spectrum u (fst p) (snd p)))
                           pts))).
  { intros u; rewrite map_map; simpl.
    unfold pts, row.
    rewrite filter_map_comm, map_map; simpl.
    now do 2 apply Sorted_map_filter. }
  destruct (spectra_dominated Hpts) as [Hdv Hva].
  split; apply sqrt_trapezoid_monotone; auto.
Qed.

Lemma unit_monotonicity_witness :
  Sorted Rle (columns psd_example) /\
  (0 < length (index psd_example))%nat /\
  (forall c, In c (data (dropna_all_columns psd_example)) ->
             1 <= fst c <= 2 ->
             1 <= fst c /\ nth 0 (snd c) NaN <> NaN) /\
  units_ordered psd_example 1 2 0.
Proof.
  assert (H1 : Sorted Rle (columns psd_example)).
  { repeat constructor; simpl; lra. }
  assert (H2 : (0 < length (index psd_example))%nat) by (simpl; lia).
  assert (H3 : forall c, In c (data (dropna_all_columns psd_example)) ->
                         1 <= fst c <= 2 ->
                         1 <= fst c /\ nth 0 (snd c) NaN <> NaN).
  { intros c [<-|[<-|[]]] _; simpl; split; try lra; discriminate. }
  split; [exact H1|split; [exact H2|split; [exact H3|]]].
  exact (@unit_monotonicity psd_example 1 2 0 H1 H2 H3).
Defined.

(** C6 (as stated, refuted).  Exchanging the two columns of a table changes
    what [df_rms] returns: it integrates over the columns in the order it
    finds them. *)
Lemma column_order_matters :
  index psd_reversed = index psd_example /\
  Permutation (data psd_reversed) (data psd_example) /\
  df_rms psd_reversed [(1, 2)] "ACC" <> df_rms psd_example [(1, 2)] "ACC".
Proof.
  split; [reflexivity|split; [apply perm_swap|]].
  intros Heq.
  assert (H : rms_value psd_reversed "ACC" 1 2 0
              = rms_value psd_example "ACC" 1 2 0).
  { unfold rms_value; now rewrite Heq. }
  rewrite psd_reversed_acc, psd_example_acc in H; discriminate.
Qed.

(** C6 (amended).  [df_rms] does not sort: it integrates over the columns
    in the order of the table.  The calling cell sorts the columns
    ([sort_index(axis=1)]) before the call, and with that sort in front
    the output is the same for every permutation of the columns of a table
    with unique frequencies. *)
Theorem sorted_call_permutation_invariant (d1 d2 : DataFrame R)
  (bands : list (R * R)) (output : string) :
  index d1 = index d2 ->
  Permutation (data d1) (data d2) ->
  NoDup (columns d1) ->
  df_rms (sort_index_columns d1) bands output
  = df_rms (sort_index_columns d2) bands output
  /\ displacement_RMS d1 = displacement_RMS d2.
Proof.
  intros Hidx Hperm Hnd.
  assert (Heq : sort_index_columns d1 = sort_index_columns d2).
  { unfold sort_index_columns.
    now rewrite Hidx, (sort_columns_permutation Hperm Hnd). }
  unfold displacement_RMS; now rewrite Heq.
Qed.

Lemma sorted_call_permutation_invariant_witness :
  index psd_reversed = index psd_example /\
  Permutation (data psd_reversed) (data psd_example) /\
  NoDup (columns psd_reversed) /\
  df_rms (sort_index_columns psd_reversed) [(1, 2)] "ACC"
  = df_rms (sort_index_columns psd_example) [(1, 2)] "ACC".
Proof.
  assert (H1 : index psd_reversed = index psd_example) by reflexivity.
  assert (H2 : Permutation (data psd_reversed) (data psd_example))
    by apply perm_swap.
  assert (H3 : NoDup (columns psd_reversed)).
  { repeat constructor; simpl; intros H; decompose [or] H; lra. }
  split; [exact H1|split; [exact H2|split; [exact H3|]]].
  exact (proj1 (@sorted_call_permutation_invariant psd_reversed psd_example
                  [(1, 2)] "ACC" H1 H2 H3)).
Defined.

(* ================================================================== *)
(** * Further properties of [df_rms] *)

(** ** Sign and missing values *)

Lemma dfrms_not_negative (a : Series R) : nan_or_not_negative (dfrms a).
Proof.
  unfold dfrms, Float.sqrt.
  destruct (trapz (map snd a) (map fst a)) as [t|]; simpl; [|exact I].
  destruct (Rlt_dec t 0); simpl; [exact I|apply sqrt_pos].
Qed.

Lemma band_series_not_negative (d : DataFrame R) (output : string)
  (fmin fmax : R) :
  Forall nan_or_not_negative (band_series d output fmin fmax).
Proof.
  unfold band_series, apply_rows.
  apply Forall_forall; intros v Hv.
  apply in_map_iff in Hv as [i [<- _]].
  apply dfrms_not_negative.
Qed.

(** X1.  Every value of the table [df_rms] returns is missing or not
    negative. *)
Theorem rms_values_not_negative (d : DataFrame R) (bands : list (R * R))
  (output : string) :
  exists r,
    df_rms d bands output = Ok r /\
    Forall (fun kv => Forall nan_or_not_negative (snd kv)) (data r).
Proof.
  rewrite df_rms_eq; eexists; split; [reflexivity|]; simpl.
  apply (assign_all_values
           (fun b => band_label (fst b) (snd b))
           (fun b => band_series (dropna_all_columns d) output
                       (fst b) (snd b))
           (Forall nan_or_not_negative)); [|constructor].
  intros b _; apply band_series_not_negative.
Qed.

Lemma add_nan_r (x : float) : Float.add x NaN = NaN.
Proof. destruct x; reflexivity. Qed.

Lemma spec_spectrum_nan (u : output_unit) (f : R) :
  spec_spectrum u f NaN = NaN.
Proof. destruct u; reflexivity. Qed.

Lemma trapezoid_nan (pts : list (R * float)) :
  (2 <= length pts)%nat ->
  (exists p, In p pts /\ snd p = NaN) ->
  spec_trapezoid pts = NaN.
Proof.
  induction pts as [|[x0 y0] pts IH]; [simpl; lia|].
  destruct pts as [|[x1 y1] rest]; [simpl; lia|].
  intros _ [p [Hin Hp]].
  rewrite spec_trapezoid_cons2.
  destruct Hin as [<-|[<-|Hin]]; simpl in Hp.
  - subst y0; reflexivity.
  - subst y1; destruct y0; reflexivity.
  - rewrite IH; [apply add_nan_r| |].
    + destruct rest; [destruct Hin|simpl; lia].
    + exists p; split; [now right|exact Hp].
Qed.

Lemma selected_points (d : DataFrame R) (u : output_unit) (fmin fmax : R)
  (i : nat) :
  map (fun p => (fst p, spec_spectrum u (fst p) (snd p)))
    (filter (fun p => spec_selected fmin fmax (fst p)) (row d i))
  = map (fun c => (fst c, spec_spectrum u (fst c) (nth i (snd c) NaN)))
      (data (select_band d fmin fmax)).
Proof.
  unfold row, select_band; simpl.
  rewrite filter_map_comm, map_map; simpl.
  f_equal; apply filter_ext; intros c.
  symmetry; apply in_band_selected.
Qed.

(** X2.  Missing values are not skipped: when a band selects at least two
    columns and one of them has no value in a row, the value of that row
    is NaN, in every unit. *)
Theorem missing_cell_gives_nan (d : DataFrame R) (output : string)
  (fmin fmax : R) (i : nat) (c : R * list float) :
  (i < length (index d))%nat ->
  (2 <= length (data (select_band (dropna_all_columns d) fmin fmax)))%nat ->
  In c (data (select_band (dropna_all_columns d) fmin fmax)) ->
  nth i (snd c) NaN = NaN ->
  rms_value d output fmin fmax i = Some NaN.
Proof.
  intros Hi Hlen Hc Hnan.
  rewrite rms_value_row by exact Hi.
  unfold spec_rms; rewrite selected_points.
  rewrite trapezoid_nan; [reflexivity| |].
  - now rewrite length_map.
  - exists (fst c, spec_spectrum (unit_of_code output) (fst c)
                     (nth i (snd c) NaN)); split.
    + apply (in_map (fun c => (fst c,
                               spec_spectrum (unit_of_code output) (fst c)
                                 (nth i (snd c) NaN)))), Hc.
    + simpl; rewrite Hnan; apply spec_spectrum_nan.
Qed.

Lemma missing_cell_gives_nan_witness :
  (0 < length (index psd_gap))%nat /\
  (2 <= length (data (select_band (dropna_all_columns psd_gap) 1 2)))%nat /\
  rms_value psd_gap "DISP" 1 2 0 = Some NaN.
Proof.
  assert (H1 : (0 < length (index psd_gap))%nat) by (simpl; lia).
  assert (Hsel : data (select_band (dropna_all_columns psd_gap) 1 2)
                 = [(1, [Some 0; Some 0]); (2, [NaN; Some 0])]).
  { cbv [psd_gap select_band dropna_all_columns data index filter existsb
           Float.notna Float.NaN snd fst orb].
    rewrite !(proj2 (in_band_true 1 2 _)) by lra; reflexivity. }
  assert (H2 : (2 <= length (data (select_band (dropna_all_columns psd_gap)
                                     1 2)))%nat)
    by (rewrite Hsel; simpl; lia).
  assert (H3 : In (2, [NaN; Some 0])
                 (data (select_band (dropna_all_columns psd_gap) 1 2)))
    by (rewrite Hsel; right; left; reflexivity).
  split; [exact H1|split; [exact H2|]].
  exact (@missing_cell_gives_nan psd_gap "DISP" 1 2 0 (2, [NaN; Some 0])
           H1 H2 H3 eq_refl).
Defined.

Lemma Forall2_diag {A : Type} (P : A -> A -> Prop) (l : list A) :
  Forall (fun a => P a a) l -> Forall2 P l l.
Proof. induction 1; constructor; auto. Qed.

Lemma omega2_pos (f : R) : f <> 0 -> 0 < (2 * PI * f) ^ 2.
Proof.
  intros Hf; rewrite <- Rsqr_pow2; apply Rsqr_pos_lt.
  apply Rmult_integral_contrapositive_currified; [|exact Hf].
  apply Rmult_integral_contrapositive_currified; [lra|apply PI_neq0].
Qed.

Lemma spectrum_finite (u : output_unit) (f b : R) :
  u = ACCELERATION \/ f <> 0 ->
  exists a, spec_spectrum u f (Some b) = Some a /\ 0 <= a.
Proof.
  intros Hf.
  assert (Hp : 0 < Rpower 10 (b / 10)) by (unfold Rpower; apply exp_pos).
  set (p := Rpower 10 (b / 10)) in *.
  destruct u.
  - exists p; split; [reflexivity|lra].
  - destruct Hf as [Hu|Hf]; [discriminate|].
    pose proof (omega2_pos Hf) as Hw.
    set (w := (2 * PI * f) ^ 2) in *.
    exists (p / w).
    change (spec_spectrum VELOCITY f (Some b))
      with (Float.div (Some p) (Some w)).
    rewrite div_finite by lra; split; [reflexivity|].
    apply Rlt_le, Rdiv_lt_0_compat; lra.
  - destruct Hf as [Hu|Hf]; [discriminate|].
    pose proof (omega2_pos Hf) as Hw.
    set (w := (2 * PI * f) ^ 2) in *.
    exists (p / w / w).
    change (spec_spectrum DISPLACEMENT f (Some b))
      with (Float.div (Float.div (Some p) (Some w)) (Some w)).
    rewrite !div_finite by lra; split; [reflexivity|].
    apply Rlt_le; repeat apply Rdiv_lt_0_compat; lra.
Qed.

Lemma sorted_selected_columns (d : DataFrame R) (fmin fmax : R) :
  Sorted Rle (columns d) ->
  Sorted Rle (map fst (data (select_band (dropna_all_columns d) fmin fmax))).
Proof.
  intros Hs; simpl.
  now do 2 apply Sorted_map_filter.
Qed.

(** X3.  On a table with ascending frequency columns, a row that has a
    value in every selected column gets a value, not NaN, and that value
    is not negative; for velocity and displacement the selected
    frequencies must not be zero. *)
Theorem complete_row_gives_value (d : DataFrame R) (output : string)
  (fmin fmax : R) (i : nat) :
  Sorted Rle (columns d) ->
  (i < length (index d))%nat ->
  (forall c, In c (data (select_band (dropna_all_columns d) fmin fmax)) ->
             (output = "ACC"%string \/ fst c <> 0) /\
             nth i (snd c) NaN <> NaN) ->
  exists a, rms_value d output fmin fmax i = Some (Some a) /\ 0 <= a.
Proof.
  intros Hsorted Hi Hrow.
  rewrite rms_value_row by exact Hi.
  unfold spec_rms; rewrite selected_points.
  set (pts := map _ _).
  assert (Hdom : Forall2 dominated pts pts).
  { apply Forall2_diag, Forall_forall; intros p Hp.
    apply in_map_iff in Hp as [c [<- Hc]].
    destruct (Hrow c Hc) as [Hf Hfin].
    destruct (nth i (snd c) NaN) as [b|]; [|now contradiction Hfin].
    destruct (@spectrum_finite (unit_of_code output) (fst c) b)
      as [a [Ha Hpos]].
    { destruct Hf as [->|Hf]; [left; reflexivity|now right]. }
    split; [reflexivity|]; simpl.
    exists a, a; repeat split; auto; lra. }
  assert (Hs : Sorted Rle (map fst pts)).
  { unfold pts; rewrite map_map; simpl.
    now apply sorted_selected_columns. }
  destruct (trapezoid_monotone Hdom Hs) as [t [_ [-> [_ [Ht _]]]]].
  rewrite sqrt_finite by exact Ht.
  eexists; split; [reflexivity|apply sqrt_pos].
Qed.

Lemma complete_row_gives_value_witness :
  Sorted Rle (columns psd_example) /\
  (0 < length (index psd_example))%nat /\
  exists a, rms_value psd_example "DISP" 1 2 0 = Some (Some a) /\ 0 <= a.
Proof.
  assert (H1 : Sorted Rle (columns psd_example)).
  { repeat constructor; simpl; lra. }
  assert (H2 : (0 < length (index psd_example))%nat) by (simpl; lia).
  assert (H3 : forall c,
             In c (data (select_band (dropna_all_columns psd_example) 1 2)) ->
             ("DISP"%string = "ACC"%string \/ fst c <> 0) /\
             nth 0 (snd c) NaN <> NaN).
  { intros c Hc; apply filter_In in Hc as [Hc _].
    destruct Hc as [<-|[<-|[]]]; simpl; split;
      try (right; lra); discriminate. }
  split; [exact H1|split; [exact H2|]].
  exact (@complete_row_gives_value psd_example "DISP" 1 2 0 H1 H2 H3).
Defined.

(** ** Which columns matter *)

(** X4.  A band that catches at most one column of the cleaned table gives
    0.0 in every row, whatever that column holds, missing values
    included. *)
Theorem narrow_band_is_zero (d : DataFrame R) (output : string)
  (fmin fmax : R) :
  (length (data (select_band (dropna_all_columns d) fmin fmax)) <= 1)%nat ->
  df_rms d [(fmin, fmax)] output
  = Ok (mkFrame (index d)
          [(band_label fmin fmax, repeat (Some 0) (length (index d)))]).
Proof.
  intros Hlen; rewrite df_rms_single; do 4 f_equal.
  exact (band_series_short (dropna_all_columns d) output fmin fmax Hlen).
Qed.

Lemma narrow_band_is_zero_witness :
  (length (data (select_band (dropna_all_columns psd_gap) (3 / 2) 3)) <= 1)%nat
  /\ df_rms psd_gap [(3 / 2, 3)] "DISP"
     = Ok (mkFrame (index psd_gap)
             [(band_label (3 / 2) 3,
               repeat (Some 0) (length (index psd_gap)))]).
Proof.
  assert (H : (length (data (select_band (dropna_all_columns psd_gap)
                                (3 / 2) 3)) <= 1)%nat).
  { cbv [psd_gap select_band dropna_all_columns data index filter existsb
           Float.notna Float.NaN snd fst orb].
    destruct (in_band (3 / 2) 3 1) eqn:E1.
    - apply in_band_true in E1; lra.
    - destruct (in_band (3 / 2) 3 2); simpl; lia. }
  split; [exact H|].
  exact (@narrow_band_is_zero psd_gap "DISP" (3 / 2) 3 H).
Defined.

Lemma filter_filter_comm {A : Type} (p q : A -> bool) (l : list A) :
  filter p (filter q l) = filter q (filter p l).
Proof.
  induction l as [|a l IH]; simpl; [reflexivity|].
  destruct (q a) eqn:Eq, (p a) eqn:Ep; simpl; rewrite ?Eq, ?Ep, IH;
    reflexivity.
Qed.

Lemma filter_idempotent {A : Type} (p : A -> bool) (l : list A) :
  filter p (filter p l) = filter p l.
Proof.
  induction l as [|a l IH]; simpl; [reflexivity|].
  destruct (p a) eqn:Ep; simpl; rewrite ?Ep, IH; reflexivity.
Qed.

Lemma select_band_dropna_select (d : DataFrame R) (fmin fmax : R) :
  select_band (dropna_all_columns (select_band d fmin fmax)) fmin fmax
  = select_band (dropna_all_columns d) fmin fmax.
Proof.
  unfold select_band, dropna_all_columns; simpl; f_equal.
  rewrite (filter_filter_comm (fun c => existsb Float.notna (snd c))).
  now rewrite filter_idempotent.
Qed.

(** X5.  The series of a band depends on the columns of that band only:
    [df_rms] returns the same table when all other columns are removed
    beforehand. *)
Theorem band_uses_only_its_columns (d : DataFrame R) (output : string)
  (fmin fmax : R) :
  df_rms (select_band d fmin fmax) [(fmin, fmax)] output
  = df_rms d [(fmin, fmax)] output.
Proof.
  rewrite !df_rms_single; simpl.
  unfold band_series.
  now rewrite select_band_dropna_select.
Qed.

(** X6.  Cleaning the table beforehand changes nothing:
    [dropna(axis=1, how='all')] is idempotent, so [df_rms] on the cleaned
    table is [df_rms] on the table. *)
Theorem cleaning_first_changes_nothing (d : DataFrame R)
  (bands : list (R * R)) (output : string) :
  df_rms (dropna_all_columns d) bands output = df_rms d bands output.
Proof.
  rewrite !df_rms_eq; simpl.
  unfold dropna_all_columns at 1 2; simpl.
  now rewrite filter_idempotent.
Qed.

(** ** Adding decibels *)











(** ** Neighbouring bands *)








Lemma filter_all {A : Type} (p : A -> bool) (l : list A) :
  (forall a, In a l -> p a = true) -> filter p l = l.
Proof.
  induction l as [|a l IH]; simpl; intros H; [reflexivity|].
  rewrite (H a) by now left.
  f_equal; apply IH; intros; apply H; now right.
Qed.







(** ** The columns of the result *)

Lemma dict_set_fresh {V : Type} (k : string) (v : V) (m : dict V) :
  ~ In k (map fst m) -> dict_set k v m = m ++ [(k, v)].
Proof.
  induction m as [|[k' v'] m IH]; simpl; intros Hk; [reflexivity|].
  destruct (String.eqb k' k) eqn:E.
  - apply String.eqb_eq in E; tauto.
  - f_equal; apply IH; tauto.
Qed.

Lemma assign_all_fresh {V B : Type} (key : B -> string) (val : B -> V)
  (bs : list B) (m : dict V) :
  NoDup (map key bs) ->
  (forall b, In b bs -> ~ In (key b) (map fst m)) ->
  assign_all key val bs m = m ++ map (fun b => (key b, val b)) bs.
Proof.
  revert m; induction bs as [|b bs IH]; intros m Hnd Hfresh; simpl.
  - now rewrite app_nil_r.
  - inversion Hnd as [|? ? Hnotin Hnd']; subst.
    unfold assign_all in *; simpl.
    rewrite dict_set_fresh by (apply Hfresh; now left).
    rewrite IH; [now rewrite <- app_assoc|exact Hnd'|].
    intros b' Hb'; rewrite map_app, in_app_iff; simpl.
    intros [Hin|[Heq|[]]].
    + apply (Hfresh b'); [now right|exact Hin].
    + apply Hnotin; rewrite Heq; now apply in_map.
Qed.

Lemma df_rms_distinct_labels (d : DataFrame R) (bands : list (R * R))
  (output : string) :
  NoDup (map (fun b => band_label (fst b) (snd b)) bands) ->
  df_rms d bands output
  = Ok (mkFrame (index d)
          (map (fun b => (band_label (fst b) (snd b),
                          band_series (dropna_all_columns d) output
                            (fst b) (snd b)))
             bands)).
Proof.
  intros Hnd; rewrite df_rms_eq; do 2 f_equal.
  exact (assign_all_fresh (fun b => band_label (fst b) (snd b))
           (fun b => band_series (dropna_all_columns d) output
                       (fst b) (snd b))
           bands [] Hnd (fun b _ H => H)).
Qed.

(** X9.  When the bands have pairwise different labels, the result has one
    column per band, in the order of the bands, and each column is the one
    [df_rms] returns for that band alone. *)
Theorem columns_follow_bands (d : DataFrame R) (bands : list (R * R))
  (output : string) :
  NoDup (map (fun b => band_label (fst b) (snd b)) bands) ->
  exists r,
    df_rms d bands output = Ok r /\
    columns r = map (fun b => band_label (fst b) (snd b)) bands /\
    Forall2 (fun b kv => df_rms d [b] output = Ok (mkFrame (index d) [kv]))
      bands (data r).
Proof.
  intros Hnd; rewrite (df_rms_distinct_labels d bands output Hnd).
  eexists; split; [reflexivity|]; unfold columns; simpl; split.
  - now rewrite map_map.
  - clear Hnd; induction bands as [|[fmin fmax] bands IH]; simpl;
      constructor; [apply df_rms_single|exact IH].
Qed.

Lemma freqs_labels :
  map (fun b => band_label (fst b) (snd b)) freqs
  = ["0.1-1.0"; "1.0-20.0"; "4.0-14.0"; "4.0-20.0"]%string.
Proof.
  unfold freqs, band_label; simpl.
  rewrite (@format_1f_near (1 / 10) 1), (@format_1f_near 1 10),
    (@format_1f_near 20 200), (@format_1f_near 4 40),
    (@format_1f_near 14 140) by lra.
  reflexivity.
Qed.

Lemma freqs_labels_distinct :
  NoDup (map (fun b => band_label (fst b) (snd b)) freqs).
Proof.
  rewrite freqs_labels.
  repeat (constructor;
          [simpl; intros H; decompose [or] H; try discriminate; assumption|]).
  constructor.
Qed.

Lemma columns_follow_bands_witness :
  NoDup (map (fun b => band_label (fst b) (snd b)) freqs) /\
  exists r,
    df_rms psd_example freqs "DISP" = Ok r /\
    columns r = map (fun b => band_label (fst b) (snd b)) freqs /\
    Forall2 (fun b kv => df_rms psd_example [b] "DISP"
                         = Ok (mkFrame (index psd_example) [kv]))
      freqs (data r).
Proof.
  split; [exact freqs_labels_distinct|].
  exact (@columns_follow_bands psd_example freqs "DISP"
           freqs_labels_distinct).
Defined.

(** X10.  For every PSD table the calling cell gets a table with the row
    index of the PSD table and the four columns ["0.1-1.0"], ["1.0-20.0"],
    ["4.0-14.0"] and ["4.0-20.0"], in this order; the key ["4.0-14.0"] the
    plotting cells ask for is among them. *)
Theorem calling_cell_columns (psd : DataFrame R) :
  exists r,
    displacement_RMS psd = Ok r /\
    index r = index psd /\
    columns r = ["0.1-1.0"; "1.0-20.0"; "4.0-14.0"; "4.0-20.0"]%string /\
    In "4.0-14.0"%string (columns r).
Proof.
  unfold displacement_RMS.
  rewrite (df_rms_distinct_labels (sort_index_columns psd) freqs "DISP"
             freqs_labels_distinct).
  eexists; split; [reflexivity|]; split; [reflexivity|].
  assert (Hc : columns
                 (mkFrame (index (sort_index_columns psd))
                    (map (fun b => (band_label (fst b) (snd b),
                                    band_series
                                      (dropna_all_columns
                                         (sort_index_columns psd))
                                      "DISP" (fst b) (snd b)))
                       freqs))
               = ["0.1-1.0"; "1.0-20.0"; "4.0-14.0"; "4.0-20.0"]%string).
  { unfold columns; cbn [data]; rewrite map_map; cbn [fst].
    exact freqs_labels. }
  rewrite Hc; split; [reflexivity|].
  right; right; left; reflexivity.
Qed.

(* ================================================================== *)
(** * The notebook's file names *)

(** ** Strings *)

Lemma append_assoc (a b c : string) :
  ((a ++ b) ++ c = a ++ (b ++ c))%string.
Proof. induction a as [|ch a IH]; simpl; [reflexivity|now rewrite IH]. Qed.

Lemma append_nil_r (a : string) : (a ++ "" = a)%string.
Proof. induction a as [|ch a IH]; simpl; [reflexivity|now rewrite IH]. Qed.

Lemma length_append (a b : string) :
  String.length (a ++ b) = (String.length a + String.length b)%nat.
Proof. induction a as [|ch a IH]; simpl; [reflexivity|now rewrite IH]. Qed.

Lemma list_ascii_append (a b : string) :
  list_ascii_of_string (a ++ b)
  = list_ascii_of_string a ++ list_ascii_of_string b.
Proof. induction a as [|ch a IH]; simpl; [reflexivity|now rewrite IH]. Qed.

Lemma prefix_nil (s : string) : prefix "" s = true.
Proof. destruct s; reflexivity. Qed.

Lemma prefix_true (p s : string) :
  prefix p s = true -> exists r, s = (p ++ r)%string.
Proof.
  revert s; induction p as [|a p IH]; intros s H.
  - exists s; reflexivity.
  - destruct s as [|b s]; simpl in H; [discriminate|].
    destruct (ascii_dec a b) as [->|]; [|discriminate].
    destruct (IH s H) as [r ->]; exists r; reflexivity.
Qed.

Lemma prefix_append (p r : string) : prefix p (p ++ r) = true.
Proof.
  induction p as [|a p IH]; simpl; [apply prefix_nil|].
  destruct (ascii_dec a a); [exact IH|congruence].
Qed.

Lemma substring_all (a b : string) :
  substring 0 (String.length a) (a ++ b) = a.
Proof.
  induction a as [|ch a IH]; simpl.
  - destruct b; reflexivity.
  - now rewrite IH.
Qed.

(** Removing a pattern of one character keeps the other characters. *)
Lemma remove_char (c : ascii) (s : string) :
  list_ascii_of_string (str_remove (String c "") s)
  = filter (fun ch => negb (Ascii.eqb ch c)) (list_ascii_of_string s).
Proof.
  unfold str_remove.
  induction s as [|a s IH]; [reflexivity|].
  cbn [remove_from prefix String.length Nat.sub list_ascii_of_string filter].
  destruct (ascii_dec c a) as [->|Hne].
  - rewrite prefix_nil, Ascii.eqb_refl; exact IH.
  - assert (E : Ascii.eqb a c = false) by (apply Ascii.eqb_neq; congruence).
    rewrite E; simpl; now rewrite IH.
Qed.

Lemma nslc_characters (network station location channel : string) :
  list_ascii_of_string (nslc_of network station location channel)
  = filter (fun ch => negb (Ascii.eqb ch "*" || Ascii.eqb ch "?"))
      (list_ascii_of_string (dotted network station location channel)).
Proof.
  unfold nslc_of; rewrite !remove_char.
  induction (list_ascii_of_string
               (dotted network station location channel)) as [|a l IH];
    [reflexivity|].
  simpl; destruct (Ascii.eqb a "*") eqn:E1; simpl.
  - exact IH.
  - destruct (Ascii.eqb a "?"); simpl; now rewrite IH.
Qed.

(** X11.  The name [nslc] of the download cell is the dotted name
    [network.station.location.channel] without its [*] and [?]
    characters, the other characters in their order; so no wildcard is
    left in it. *)
Theorem nslc_drops_wildcards (network station location channel : string) :
  list_ascii_of_string (nslc_of network station location channel)
  = filter (fun ch => negb (Ascii.eqb ch "*" || Ascii.eqb ch "?"))
      (list_ascii_of_string (dotted network station location channel))
  /\ ~ occurs "*" (nslc_of network station location channel)
  /\ ~ occurs "?" (nslc_of network station location channel).
Proof.
  split; [apply nslc_characters|].
  unfold occurs; rewrite nslc_characters; split;
    intros H; apply filter_In in H as [_ H]; simpl in H; discriminate.
Qed.

(** X24.  A dotted name without wildcard characters is kept as it is. *)
Theorem nslc_without_wildcards_is_kept
  (network station location channel : string) :
  ~ occurs "*" (dotted network station location channel) ->
  ~ occurs "?" (dotted network station location channel) ->
  nslc_of network station location channel
  = dotted network station location channel.
Proof.
  intros Hstar Hq.
  rewrite <- (string_of_list_ascii_of_string (nslc_of _ _ _ _)).
  rewrite nslc_characters, filter_all;
    [apply string_of_list_ascii_of_string|].
  intros a Ha.
  destruct (Ascii.eqb a "*") eqn:E1;
    [apply Ascii.eqb_eq in E1; subst a; contradiction|].
  destruct (Ascii.eqb a "?") eqn:E2;
    [apply Ascii.eqb_eq in E2; subst a; contradiction|].
  reflexivity.
Qed.

Lemma nslc_without_wildcards_is_kept_witness :
  ~ occurs "*" (dotted "BE" "UCC" "" "HHZ") /\
  ~ occurs "?" (dotted "BE" "UCC" "" "HHZ") /\
  nslc_of "BE" "UCC" "" "HHZ" = "BE.UCC..HHZ"%string.
Proof.
  assert (H1 : ~ occurs "*" (dotted "BE" "UCC" "" "HHZ")).
  { unfold occurs; simpl; intuition discriminate. }
  assert (H2 : ~ occurs "?" (dotted "BE" "UCC" "" "HHZ")).
  { unfold occurs; simpl; intuition discriminate. }
  split; [exact H1|split; [exact H2|]].
  exact (@nslc_without_wildcards_is_kept "BE" "UCC" "" "HHZ" H1 H2).
Defined.

(** X12.  The name Step 4 hands to [save_npz] is the output name without
    its extension: [fn_out[:-4]] followed by [".npz"] is [fn_out], for
    every dataset, date and trace id. *)
Theorem save_name_is_stem (dataset datestr mseedid : string) :
  save_name (npz_name dataset datestr mseedid)
  = (dataset ++ "_" ++ datestr ++ "_" ++ mseedid)%string
  /\ (save_name (npz_name dataset datestr mseedid) ++ ".npz")%string
     = npz_name dataset datestr mseedid.
Proof.
  assert (Hname : npz_name dataset datestr mseedid
                  = ((dataset ++ "_" ++ datestr ++ "_" ++ mseedid)
                       ++ ".npz")%string).
  { unfold npz_name; symmetry.
    rewrite append_assoc; simpl.
    rewrite append_assoc; simpl.
    reflexivity. }
  assert (Hstem : save_name (npz_name dataset datestr mseedid)
                  = (dataset ++ "_" ++ datestr ++ "_" ++ mseedid)%string).
  { unfold save_name, drop_last; rewrite Hname at 1 2.
    rewrite length_append; simpl String.length.
    rewrite Nat.add_sub; apply substring_all. }
  split; [exact Hstem|now rewrite Hstem, Hname].
Qed.

(** ** From a file name back to the trace id *)

Lemma split_on_not_nil (sep : ascii) (s : string) : split_on sep s <> [].
Proof.
  induction s as [|c s IH]; simpl; [discriminate|].
  destruct (Ascii.eqb c sep); [discriminate|].
  destruct (split_on sep s); discriminate.
Qed.

Lemma split_on_append (sep : ascii) (x y : string) :
  split_on sep (x ++ String sep y) = split_on sep x ++ split_on sep y.
Proof.
  induction x as [|c x IH]; simpl.
  - now rewrite Ascii.eqb_refl.
  - destruct (Ascii.eqb c sep); [now rewrite IH|].
    rewrite IH.
    destruct (split_on sep x) as [|p ps] eqn:E; [|reflexivity].
    now apply split_on_not_nil in E.
Qed.

Lemma last_default {A : Type} (l : list A) (a b c : A) :
  last (c :: l) a = last (c :: l) b.
Proof.
  revert c; induction l as [|c' l IH]; intros c; [reflexivity|].
  change (last (c' :: l) a = last (c' :: l) b); apply IH.
Qed.

Lemma last_cons {A : Type} (l : list A) (a b : A) :
  last (b :: l) a = last l b.
Proof.
  destruct l as [|c l]; [reflexivity|].
  change (last (c :: l) a = last (c :: l) b); apply last_default.
Qed.

Lemma last_item_app {A : Type} (l1 l2 : list A) :
  l2 <> [] -> last_item (l1 ++ l2) = last_item l2.
Proof.
  intros Hne; induction l1 as [|a l1 IH]; [reflexivity|].
  rewrite <- IH.
  destruct (l1 ++ l2) as [|c l] eqn:E.
  - apply app_eq_nil in E as [_ E]; contradiction.
  - change ((a :: l1) ++ l2) with (a :: (l1 ++ l2)); rewrite E.
    unfold last_item; f_equal; apply last_cons.
Qed.

Lemma last_item_split_append (sep : ascii) (x y : string) :
  last_item (split_on sep (x ++ String sep y))
  = last_item (split_on sep y).
Proof.
  rewrite split_on_append.
  apply last_item_app, split_on_not_nil.
Qed.

(** Removing [".npz"] does not reach over an underscore: what follows the
    underscore is treated on its own. *)
Lemma remove_npz_keeps_underscore (x y : string) (k : nat) :
  (exists u w, (x ++ String "_" y = u ++ w)%string /\
               String.length u = k /\ ~ occurs "_" u) ->
  exists x',
    remove_from ".npz" k (x ++ String "_" y)
    = (x' ++ String "_" (remove_from ".npz" 0 y))%string.
Proof.
  revert k; induction x as [|c x IH]; intros k [u [w [Hz [Hlen Hu]]]].
  - simpl in Hz; destruct u as [|a u].
    + simpl in Hlen; subst k; exists ""%string; reflexivity.
    + simpl in Hz; injection Hz as <- _.
      exfalso; apply Hu; now left.
  - simpl append; destruct k as [|k].
    + cbn [remove_from].
      destruct (prefix ".npz" (String c (x ++ String "_" y))) eqn:E.
      * apply prefix_true in E as [r Hr].
        simpl in Hr; injection Hr as -> Hr.
        apply IH.
        exists "npz"%string, r; repeat split; [exact Hr|].
        unfold occurs; simpl; intuition discriminate.
      * destruct (IH 0%nat) as [x' Hx'].
        { exists ""%string, (x ++ String "_" y)%string.
          repeat split; intros []. }
        exists (String c x'); simpl; now rewrite Hx'.
    + cbn [remove_from]; apply IH.
      destruct u as [|a u]; [discriminate|].
      simpl in Hz, Hlen; injection Hz as _ Hz; injection Hlen as Hlen.
      exists u, w; repeat split; auto.
      intros H; apply Hu; now right.
Qed.

(** Removing [".npz"] from a name that ends in it and has no other
    occurrence of it gives the name without the ending. *)
Lemma remove_npz_ending (id : string) :
  (forall a b, id <> (a ++ ".npz" ++ b)%string) ->
  remove_from ".npz" 0 (id ++ ".npz") = id.
Proof.
  induction id as [|c t IH]; intros Hfree; [reflexivity|].
  simpl append; cbn [remove_from].
  destruct (prefix ".npz" (String c (t ++ ".npz"))) eqn:E.
  - exfalso.
    apply prefix_true in E as [r Hr]; simpl in Hr.
    injection Hr as -> Hr.
    destruct t as [|c2 t]; [discriminate|].
    simpl in Hr; injection Hr as -> Hr.
    destruct t as [|c3 t]; [discriminate|].
    simpl in Hr; injection Hr as -> Hr.
    destruct t as [|c4 t]; [discriminate|].
    simpl in Hr; injection Hr as -> Hr.
    apply (Hfree ""%string t); reflexivity.
  - f_equal; apply IH.
    intros a b ->; apply (Hfree (String c a) b); reflexivity.
Qed.

Lemma split_on_absent (sep : ascii) (s : string) :
  ~ occurs sep s -> split_on sep s = [s].
Proof.
  induction s as [|c s IH]; intros Hs; [reflexivity|]; simpl.
  destruct (Ascii.eqb c sep) eqn:E.
  - apply Ascii.eqb_eq in E; subst c.
    exfalso; apply Hs; now left.
  - rewrite IH; [reflexivity|].
    intros H; apply Hs; now right.
Qed.

(** X13.  Step 5 reads back the trace id that Step 4 wrote into the file
    name: for an id without underscore and without [".npz"] inside,
    [fn.replace(".npz", "").split("_")[-1]] of the name
    [dataset_datestr_id.npz] is the id, whatever the dataset and the
    date are. *)
Theorem mseedid_round_trip (dataset datestr id : string) :
  ~ occurs "_" id ->
  (forall a b, id <> (a ++ ".npz" ++ b)%string) ->
  mseedid_of (npz_name dataset datestr id) = Ok id.
Proof.
  intros Hsep Hfree; unfold mseedid_of, npz_name, str_remove.
  change ("_" ++ datestr ++ "_" ++ id ++ ".npz")%string
    with (String "_" (datestr ++ String "_" (id ++ ".npz")))%string.
  destruct (@remove_npz_keeps_underscore dataset
              (datestr ++ String "_" (id ++ ".npz")) 0) as [x1 H1].
  { exists ""%string, (dataset ++ String "_"
                         (datestr ++ String "_" (id ++ ".npz")))%string.
    repeat split; intros []. }
  destruct (@remove_npz_keeps_underscore datestr (id ++ ".npz") 0)
    as [x2 H2].
  { exists ""%string, (datestr ++ String "_" (id ++ ".npz"))%string.
    repeat split; intros []. }
  rewrite H1, H2, remove_npz_ending by exact Hfree.
  rewrite !last_item_split_append.
  now rewrite split_on_absent.
Qed.

Lemma mseedid_round_trip_witness :
  ~ occurs "_" "BE.UCC..HHZ" /\
  mseedid_of (npz_name "example" "2020-03-01" "BE.UCC..HHZ")
  = Ok "BE.UCC..HHZ"%string.
Proof.
  assert (H1 : ~ occurs "_" "BE.UCC..HHZ").
  { unfold occurs; simpl; intuition discriminate. }
  assert (H2 : forall a b, "BE.UCC..HHZ"%string <> (a ++ ".npz" ++ b)%string).
  { intros a b H.
    repeat (destruct a as [|? a]; simpl in H;
            [discriminate H|injection H as _ H]).
    destruct a; discriminate H. }
  split; [exact H1|].
  exact (@mseedid_round_trip "example" "2020-03-01" "BE.UCC..HHZ" H1 H2).
Defined.

(** ** Reloading the daily files *)

Lemma mseedid_of_returns (fn : string) : exists id, mseedid_of fn = Ok id.
Proof.
  unfold mseedid_of.
  destruct (split_on "_" (str_remove ".npz" fn)) as [|p ps] eqn:E.
  - now apply split_on_not_nil in E.
  - eexists; reflexivity.
Qed.

Section Reload.

Context {P : Type}.
Variables (load_npz : string -> P) (add_npz : P -> string -> P).

Lemma reload_files_get (fns : list string) (ppsds : dict P) :
  exists ppsds',
    reload_files load_npz add_npz fns ppsds = Ok ppsds' /\
    forall id,
      dict_get id ppsds'
      = fold_left (merge_file load_npz add_npz) (files_of id fns)
          (dict_get id ppsds).
Proof.
  revert ppsds; induction fns as [|fn fns IH]; intros ppsds.
  - exists ppsds; split; [reflexivity|]; intros id; reflexivity.
  - cbn [reload_files].
    destruct (mseedid_of_returns fn) as [i Hi].
    rewrite Hi; cbn [bind].
    assert (Hstep : forall p id,
               dict_get id (dict_set i p ppsds)
               = if String.eqb i id then Some p else dict_get id ppsds).
    { intros p id; destruct (String.eqb i id) eqn:E.
      - apply String.eqb_eq in E; subst id; apply dict_get_set_same.
      - apply String.eqb_neq in E; now apply dict_get_set_other. }
    destruct (dict_get i ppsds) as [ppsd|] eqn:Hget;
      match goal with
      | |- context [reload_files _ _ fns ?m] =>
          destruct (IH m) as [ppsds' [Hrun Hall]]
      end;
      exists ppsds'; (split; [exact Hrun|]); intros id;
      rewrite Hall, Hstep; unfold files_of; simpl; rewrite Hi;
      destruct (String.eqb i id) eqn:E; try reflexivity;
      apply String.eqb_eq in E; subst id; simpl; now rewrite Hget.
Qed.

Lemma reload_days_get (glob : string -> list string) (dataset : string)
  (datestrs : list string) (ppsds : dict P) :
  exists ppsds',
    reload_days load_npz add_npz glob dataset datestrs ppsds = Ok ppsds' /\
    forall id,
      dict_get id ppsds'
      = fold_left (merge_file load_npz add_npz)
          (files_of id (visited_files glob dataset datestrs))
          (dict_get id ppsds).
Proof.
  revert ppsds; induction datestrs as [|datestr datestrs IH]; intros ppsds.
  - exists ppsds; split; [reflexivity|]; intros id; reflexivity.
  - cbn [reload_days].
    destruct (reload_files_get (glob (npz_pattern dataset datestr)) ppsds)
      as [ppsds1 [Hrun1 Hall1]].
    rewrite Hrun1; cbn [bind].
    destruct (IH ppsds1) as [ppsds' [Hrun Hall]].
    exists ppsds'; split; [exact Hrun|]; intros id.
    rewrite Hall, Hall1.
    unfold visited_files, files_of; simpl.
    now rewrite filter_app, fold_left_app.
Qed.

Lemma merge_file_some (fns : list string) (p : P) :
  fold_left (merge_file load_npz add_npz) fns (Some p)
  = Some (fold_left add_npz fns p).
Proof.
  revert p; induction fns as [|fn fns IH]; intros p; simpl; auto.
Qed.

End Reload.

(** X14.  Step 5 never fails on a file name and groups the files by trace
    id: after the loops, an id no visited file gives is not in [ppsds],
    and every other id holds the PPSD loaded from its first file with its
    later files added, in the order they were visited. *)
Theorem reload_groups_by_id {P : Type} (load_npz : string -> P)
  (add_npz : P -> string -> P) (glob : string -> list string)
  (dataset : string) (datestrs : list string) :
  exists ppsds,
    reload_cell load_npz add_npz glob dataset datestrs = Ok ppsds /\
    forall id,
      dict_get id ppsds
      = merged load_npz add_npz
          (files_of id (visited_files glob dataset datestrs)).
Proof.
  destruct (reload_days_get load_npz add_npz glob dataset datestrs [])
    as [ppsds [Hrun Hall]].
  exists ppsds; split; [exact Hrun|]; intros id.
  rewrite Hall; simpl.
  destruct (files_of id (visited_files glob dataset datestrs)) as [|fn later];
    [reflexivity|].
  simpl; apply merge_file_some.
Qed.

(* ================================================================== *)
(** * The table the calling cell builds *)

Lemma insert_column_last {V : Type} (c : R * V) (l : list (R * V)) :
  (forall c', In c' l -> fst c' < fst c) -> insert_column c l = l ++ [c].
Proof.
  induction l as [|c' l IH]; intros Hlt; [reflexivity|]; simpl.
  unfold Rleb; destruct (Rle_dec (fst c) (fst c')) as [Hle|_].
  - specialize (Hlt c' (or_introl eq_refl)); lra.
  - f_equal; apply IH; intros c'' Hc; apply Hlt; now right.
Qed.

Lemma sort_columns_descending {V : Type} (l : list (R * V)) :
  StronglySorted (fun a b => b < a) (map fst l) -> sort_columns l = rev l.
Proof.
  induction l as [|c l IH]; intros Hs; [reflexivity|].
  simpl in Hs; inversion Hs as [|? ? Hs' Hall]; subst.
  simpl; rewrite IH by exact Hs'.
  apply insert_column_last.
  intros c' Hc'; apply in_rev in Hc'.
  rewrite Forall_forall in Hall; apply Hall; now apply in_map.
Qed.

Lemma reciprocals_descend (periods : list R) :
  StronglySorted Rlt periods -> Forall (fun p => 0 < p) periods ->
  StronglySorted (fun a b => b < a) (map (fun p => 1 / p) periods).
Proof.
  induction 1 as [|p periods Hs IH Hall]; intros Hpos; simpl;
    constructor.
  - apply IH; now inversion Hpos.
  - inversion Hpos as [|? ? Hp Hpos']; subst.
    rewrite Forall_forall in *; intros x Hx.
    apply in_map_iff in Hx as [q [<- Hq]].
    specialize (Hall q Hq); specialize (Hpos' q Hq).
    unfold Rdiv; rewrite !Rmult_1_l.
    apply Rinv_lt_contravar; [nra|exact Hall].
Qed.

(** X15.  The calling cell labels the columns with [1./period]; for
    ascending positive periods these frequencies descend, and
    [sort_index(axis=1)] turns the table around: the columns come out in
    the reverse order, each with its values. *)
Theorem sort_reverses_reciprocal_periods (d : DataFrame R)
  (periods : list R) :
  columns d = map (fun p => 1 / p) periods ->
  StronglySorted Rlt periods ->
  Forall (fun p => 0 < p) periods ->
  sort_index_columns d = mkFrame (index d) (rev (data d)).
Proof.
  intros Hcols Hs Hpos; unfold sort_index_columns; f_equal.
  apply sort_columns_descending.
  fold (columns d); rewrite Hcols.
  now apply reciprocals_descend.
Qed.

Lemma sort_reverses_reciprocal_periods_witness :
  columns psd_reversed = map (fun p => 1 / p) [1 / 2; 1] /\
  StronglySorted Rlt [1 / 2; 1] /\
  Forall (fun p => 0 < p) [1 / 2; 1] /\
  sort_index_columns psd_reversed
  = mkFrame (index psd_reversed) (rev (data psd_reversed)).
Proof.
  assert (H1 : columns psd_reversed = map (fun p => 1 / p) [1 / 2; 1]).
  { simpl.
    replace (1 / (1 / 2)) with 2 by field.
    replace (1 / 1) with 1 by field.
    reflexivity. }
  assert (H2 : StronglySorted Rlt [1 / 2; 1]).
  { repeat constructor; lra. }
  assert (H3 : Forall (fun p => 0 < p) [1 / 2; 1]).
  { repeat constructor; lra. }
  split; [exact H1|split; [exact H2|split; [exact H3|]]].
  exact (@sort_reverses_reciprocal_periods psd_reversed [1 / 2; 1]
           H1 H2 H3).
Defined.

(* ================================================================== *)
(** * The download cell *)


Lemma isfile_set_same {F : Type} (fn : string) (x : F) (files : dict F) :
  isfile fn (dict_set fn x files) = true.
Proof. unfold isfile; now rewrite dict_get_set_same. Qed.

Lemma isfile_set_mono {F : Type} (fn fn' : string) (x : F) (files : dict F) :
  isfile fn files = true -> isfile fn (dict_set fn' x files) = true.
Proof.
  intros H; destruct (string_dec fn' fn) as [->|Hne].
  - apply isfile_set_same.
  - unfold isfile in *; now rewrite dict_get_set_other.
Qed.

Section Download.

Context {Stream Inventory : Type}.
Variables (c : Client Stream Inventory) (strftime : Z -> string).
Variables (dataset nslc : string).

Lemma download_days_keeps_others (now : nat -> Z) (days : list Z) (k : nat)
  (files : dict Stream) (fn : string) :
  (forall day, In day days ->
               fn <> mseed_name dataset (strftime day) nslc) ->
  dict_get fn (fst (download_days c strftime now dataset nslc days k files))
  = dict_get fn files.
Proof.
  revert k files; induction days as [|day days IH]; intros k files Hfn;
    [reflexivity|].
  cbn [download_days].
  destruct (negb (day =? now k)%Z
            && isfile (mseed_name dataset (strftime day) nslc) files).
  - apply IH; intros d Hd; apply Hfn; now right.
  - destruct (get_waveforms c _ _) as [st|]; [|reflexivity].
    rewrite IH by (intros d Hd; apply Hfn; now right).
    apply dict_get_set_other.
    intros Heq; apply (Hfn day); [now left|now symmetry].
Qed.

Lemma download_days_keeps_files (now : nat -> Z) (days : list Z) (k : nat)
  (files : dict Stream) (fn : string) :
  isfile fn files = true ->
  isfile fn (fst (download_days c strftime now dataset nslc days k files))
  = true.
Proof.
  revert k files; induction days as [|day days IH]; intros k files Hfn;
    [exact Hfn|].
  cbn [download_days].
  destruct (negb (day =? now k)%Z
            && isfile (mseed_name dataset (strftime day) nslc) files).
  - now apply IH.
  - destruct (get_waveforms c _ _) as [st|]; [|exact Hfn].
    now apply IH, isfile_set_mono.
Qed.

Lemma download_days_complete_cache (now : nat -> Z) (days : list Z)
  (k : nat) (files : dict Stream) :
  (forall day, In day days ->
               isfile (mseed_name dataset (strftime day) nslc) files = true) ->
  (forall j day, In day days -> day <> now j) ->
  download_days c strftime now dataset nslc days k files = (files, None).
Proof.
  revert k; induction days as [|day days IH]; intros k Hfiles Hclock;
    [reflexivity|].
  cbn [download_days].
  rewrite (Hfiles day) by now left.
  assert (E : (day =? now k)%Z = false).
  { apply Z.eqb_neq, Hclock; now left. }
  rewrite E; simpl.
  apply IH; intros; [apply Hfiles|apply Hclock]; now right.
Qed.

Lemma download_days_all_present (now : nat -> Z) (days : list Z) (k : nat)
  (files : dict Stream) :
  (forall t1 t2, get_waveforms c t1 t2 <> None) ->
  snd (download_days c strftime now dataset nslc days k files) = None /\
  forall day, In day days ->
    isfile (mseed_name dataset (strftime day) nslc)
      (fst (download_days c strftime now dataset nslc days k files)) = true.
Proof.
  intros Hok; revert k files; induction days as [|day days IH];
    intros k files; [split; [reflexivity|intros day []]|].
  cbn [download_days].
  destruct (negb (day =? now k)%Z
            && isfile (mseed_name dataset (strftime day) nslc) files)
    eqn:Eskip.
  - destruct (IH (S k) files) as [Hnone Hall].
    split; [exact Hnone|].
    intros d [<-|Hd]; [|now apply Hall].
    apply andb_true_iff in Eskip as [_ Hfile].
    now apply download_days_keeps_files.
  - destruct (get_waveforms c (day - seconds 1801)
                (day + seconds 86400 + seconds 1801)) as [st|] eqn:Eget;
      [|now apply Hok in Eget].
    destruct (IH (S k)
                (dict_set (mseed_name dataset (strftime day) nslc) st files))
      as [Hnone Hall].
    split; [exact Hnone|].
    intros d [<-|Hd]; [|now apply Hall].
    apply download_days_keeps_files, isfile_set_same.
Qed.

End Download.

Lemma download_cell_files {Stream Inventory : Type}
  (c : Client Stream Inventory) (strftime : Z -> string) (now : nat -> Z)
  (start stop : Z) (dataset nslc : string) (files : dict Stream) :
  fst (download_cell c strftime now start stop dataset nslc files)
  = fst (download_days c strftime (fun k => now (S k)) dataset nslc
           (date_range start (Z.min stop (now 0%nat))) 0 files).
Proof.
  unfold download_cell.
  destruct (download_days _ _ _ _ _ _ _ _) as [files' [e|]]; [reflexivity|].
  destruct (date_range start (Z.min stop (now 0%nat))) as [|d ds];
    [reflexivity|].
  destruct (get_stations c (last ds d)); reflexivity.
Qed.



(** X17.  A complete cache is left as it is: when the file of every listed
    day is on disk and the clock never reads exactly the instant of a listed
    day, the cell downloads nothing and the files are unchanged, the file
    of the last day included. *)
Theorem complete_cache_is_kept {Stream Inventory : Type}
  (c : Client Stream Inventory) (strftime : Z -> string) (now : nat -> Z)
  (start stop : Z) (dataset nslc : string) (files : dict Stream) :
  (forall day, In day (date_range start (Z.min stop (now 0%nat))) ->
               isfile (mseed_name dataset (strftime day) nslc) files = true) ->
  (forall j day, In day (date_range start (Z.min stop (now 0%nat))) ->
                 day <> now (S j)) ->
  fst (download_cell c strftime now start stop dataset nslc files) = files.
Proof.
  intros Hfiles Hclock.
  rewrite download_cell_files.
  now rewrite (download_days_complete_cache c strftime dataset nslc
                 (fun k => now (S k)) _ 0 files Hfiles Hclock).
Qed.

Lemma complete_cache_is_kept_witness :
  (forall day, In day (date_range 0 (Z.min 0 1)) ->
               isfile (mseed_name "example" "d" "BE.UCC..HHZ")
                 [(mseed_name "example" "d" "BE.UCC..HHZ", tt)] = true) /\
  fst (download_cell any_client (fun _ => "d"%string) (fun _ => 1%Z) 0 0
         "example" "BE.UCC..HHZ"
         [(mseed_name "example" "d" "BE.UCC..HHZ", tt)])
  = [(mseed_name "example" "d" "BE.UCC..HHZ", tt)].
Proof.
  assert (H1 : forall day,
             In day (date_range 0 (Z.min 0 1)) ->
             isfile (mseed_name "example" "d" "BE.UCC..HHZ")
               [(mseed_name "example" "d" "BE.UCC..HHZ", tt)] = true).
  { intros day _; reflexivity. }
  assert (H2 : forall (j : nat) day,
             In day (date_range 0 (Z.min 0 1)) ->
             day <> 1%Z).
  { intros j day [<-|[]]; discriminate. }
  split; [exact H1|].
  exact (@complete_cache_is_kept unit unit any_client (fun _ => "d"%string)
           (fun _ => 1%Z) 0 0 "example" "BE.UCC..HHZ"
           [(mseed_name "example" "d" "BE.UCC..HHZ", tt)] H1 H2).
Defined.

(** X18.  When the data centre answers every waveform request, the loop
    runs to its end and the file of every listed day is on disk
    afterwards. *)
Theorem every_day_gets_its_file {Stream Inventory : Type}
  (c : Client Stream Inventory) (strftime : Z -> string) (now : nat -> Z)
  (start stop : Z) (dataset nslc : string) (files : dict Stream) :
  (forall t1 t2, get_waveforms c t1 t2 <> None) ->
  forall day, In day (date_range start (Z.min stop (now 0%nat))) ->
    isfile (mseed_name dataset (strftime day) nslc)
      (fst (download_cell c strftime now start stop dataset nslc files))
    = true.
Proof.
  intros Hok day Hday.
  rewrite download_cell_files.
  now apply (download_days_all_present c strftime dataset nslc
               (fun k => now (S k)) _ 0 files Hok).
Qed.

Lemma every_day_gets_its_file_witness :
  (forall t1 t2, get_waveforms any_client t1 t2 <> None) /\
  In 0%Z (date_range 0 (Z.min 0 1)) /\
  isfile (mseed_name "example" "d" "BE.UCC..HHZ")
    (fst (download_cell any_client (fun _ => "d"%string) (fun _ => 1%Z) 0 0
            "example" "BE.UCC..HHZ" []))
  = true.
Proof.
  assert (H1 : forall t1 t2, get_waveforms any_client t1 t2 <> None)
    by (intros t1 t2; discriminate).
  assert (H2 : In 0%Z (date_range 0 (Z.min 0 1)))
    by (left; reflexivity).
  split; [exact H1|split; [exact H2|]].
  exact (@every_day_gets_its_file unit unit any_client (fun _ => "d"%string)
           (fun _ => 1%Z) 0 0 "example" "BE.UCC..HHZ" [] H1 0%Z H2).
Defined.

(** X19.  The cell writes only files named after a listed day: a file
    with any other name keeps its contents, or stays absent, also when a
    request fails. *)
Theorem download_touches_only_its_files {Stream Inventory : Type}
  (c : Client Stream Inventory) (strftime : Z -> string) (now : nat -> Z)
  (start stop : Z) (dataset nslc : string) (files : dict Stream)
  (fn : string) :
  (forall day, In day (date_range start (Z.min stop (now 0%nat))) ->
               fn <> mseed_name dataset (strftime day) nslc) ->
  dict_get fn
    (fst (download_cell c strftime now start stop dataset nslc files))
  = dict_get fn files.
Proof.
  rewrite download_cell_files.
  apply download_days_keeps_others.
Qed.

Lemma download_touches_only_its_files_witness :
  (forall day, In day (date_range 0 (Z.min 0 1)) ->
               "notes.txt"%string
               <> mseed_name "example" "d" "BE.UCC..HHZ") /\
  dict_get "notes.txt"
    (fst (download_cell any_client (fun _ => "d"%string) (fun _ => 1%Z) 0 0
            "example" "BE.UCC..HHZ" [("notes.txt"%string, tt)]))
  = dict_get "notes.txt" [("notes.txt"%string, tt)].
Proof.
  assert (H : forall day,
             In day (date_range 0 (Z.min 0 1)) ->
             "notes.txt"%string
             <> mseed_name "example" "d" "BE.UCC..HHZ").
  { intros day _; discriminate. }
  split; [exact H|].
  exact (@download_touches_only_its_files unit unit any_client
           (fun _ => "d"%string) (fun _ => 1%Z) 0 0 "example" "BE.UCC..HHZ"
           [("notes.txt"%string, tt)] "notes.txt" H).
Defined.

(** X20.  The cell deletes nothing: a file that is on disk before the cell
    runs is on disk afterwards, also when a request fails. *)
Theorem download_deletes_nothing {Stream Inventory : Type}
  (c : Client Stream Inventory) (strftime : Z -> string) (now : nat -> Z)
  (start stop : Z) (dataset nslc : string) (files : dict Stream)
  (fn : string) :
  isfile fn files = true ->
  isfile fn
    (fst (download_cell c strftime now start stop dataset nslc files))
  = true.
Proof.
  rewrite download_cell_files.
  apply download_days_keeps_files.
Qed.

Lemma download_deletes_nothing_witness :
  isfile "notes.txt" [("notes.txt"%string, tt)] = true /\
  isfile "notes.txt"
    (fst (download_cell any_client (fun _ => "d"%string) (fun _ => 1%Z) 0 0
            "example" "BE.UCC..HHZ" [("notes.txt"%string, tt)]))
  = true.
Proof.
  assert (H : isfile "notes.txt" [("notes.txt"%string, tt)] = true)
    by reflexivity.
  split; [exact H|].
  exact (@download_deletes_nothing unit unit any_client
           (fun _ => "d"%string) (fun _ => 1%Z) 0 0 "example" "BE.UCC..HHZ"
           [("notes.txt"%string, tt)] "notes.txt" H).
Defined.

(** X21.  The days the cell lists start at [start], are whole days apart,
    and none of them is after [end] or after the present. *)
Theorem listed_days_in_range (start stop now0 day : Z) :
  In day (date_range start (Z.min stop now0)) ->
  (start <= day <= stop)%Z /\ (day <= now0)%Z /\
  exists k, day = (start + Z.of_nat k * one_day)%Z.
Proof.
  unfold date_range.
  destruct (Z.min stop now0 <? start)%Z eqn:E; [intros []|].
  apply Z.ltb_ge in E.
  intros Hin; apply in_map_iff in Hin as [k [<- Hk]].
  apply in_seq in Hk as [_ Hk].
  assert (Hday : (0 < one_day)%Z) by reflexivity.
  assert (Hk' : (Z.of_nat k <= (Z.min stop now0 - start) / one_day)%Z).
  { rewrite <- (Z2Nat.id ((Z.min stop now0 - start) / one_day))
      by (apply Z.div_pos; lia).
    apply Nat2Z.inj_le; lia. }
  assert (Hle : (Z.of_nat k * one_day <= Z.min stop now0 - start)%Z).
  { pose proof (Z.mul_div_le (Z.min stop now0 - start) one_day Hday).
    nia. }
  repeat split; try lia.
  exists k; reflexivity.
Qed.

Lemma listed_days_in_range_witness :
  In 86400000000%Z (date_range 0 (Z.min 200000000000 100000000000)) /\
  (0 <= 86400000000 <= 200000000000)%Z /\
  (86400000000 <= 100000000000)%Z.
Proof.
  assert (H : In 86400000000%Z
                (date_range 0 (Z.min 200000000000 100000000000)))
    by (right; left; reflexivity).
  split; [exact H|].
  destruct (@listed_days_in_range 0 200000000000 100000000000 86400000000 H)
    as [H1 [H2 _]].
  split; [exact H1|exact H2].
Defined.

(* ================================================================== *)
(** * More on the values *)

Lemma band_series_index (idx idx' : list Z) (cols : list (R * list float))
  (output : string) (fmin fmax : R) :
  length idx = length idx' ->
  band_series (dropna_all_columns (mkFrame idx cols)) output fmin fmax
  = band_series (dropna_all_columns (mkFrame idx' cols)) output fmin fmax.
Proof.
  intros Hlen; unfold band_series, apply_rows.
  rewrite !index_power_spectrum; simpl; rewrite Hlen.
  apply map_ext; intros i.
  rewrite !dfrms_spec_trapezoid, !row_power_spectrum.
  reflexivity.
Qed.

(** X22.  [df_rms] never looks at the timestamps: two tables with the same
    columns and as many rows get the same columns of values, each under
    its own row index, whatever the timestamps are (repeated, out of
    order). *)
Theorem timestamps_do_not_matter (idx idx' : list Z)
  (cols : list (R * list float)) (bands : list (R * R)) (output : string) :
  length idx = length idx' ->
  exists values,
    df_rms (mkFrame idx cols) bands output = Ok (mkFrame idx values) /\
    df_rms (mkFrame idx' cols) bands output = Ok (mkFrame idx' values).
Proof.
  intros Hlen; rewrite !df_rms_eq; eexists; split; [reflexivity|].
  simpl; do 2 f_equal.
  apply fold_left_ext_fun; intros t b; unfold store_band.
  now rewrite (band_series_index idx' idx cols output (fst b) (snd b))
    by now symmetry.
Qed.

Lemma timestamps_do_not_matter_witness :
  length [0%Z] = length [7%Z] /\
  exists values,
    df_rms (mkFrame [0%Z] (data psd_example)) freqs "DISP"
    = Ok (mkFrame [0%Z] values) /\
    df_rms (mkFrame [7%Z] (data psd_example)) freqs "DISP"
    = Ok (mkFrame [7%Z] values).
Proof.
  assert (H : length [0%Z] = length [7%Z]) by reflexivity.
  split; [exact H|].
  exact (@timestamps_do_not_matter [0%Z] [7%Z] (data psd_example) freqs
           "DISP" H).
Defined.




